(** * onel/epicenter: request parameter mapper, request executor and
      platform service wrappers

    A shallow embedding of
    - [apps/sh/src/lib/client/core/params.ts]   (module [Params]),
    - [apps/sh/src/lib/client/client/client.ts] (module [Client]),
    - the permissions, FFmpeg and desktop notification services of
      [apps/whispering] (module [Services]),
    together with the properties the specification states about them. *)

From Stdlib Require Import String Ascii List ZArith Bool Lia.
From stdpp Require Import gmap strings pretty.
Import ListNotations.

Local Open Scope string_scope.
Local Open Scope list_scope.

(** ** JavaScript values

    The code under study handles values of type [unknown].  What it
    observes of a value is: whether it is nullish, whether it is truthy,
    whether [typeof] is ['object'], and its own enumerable string-keyed
    properties; what it does to a value is a property assignment.  An
    object is therefore its class together with its own enumerable
    string-keyed data properties, listed in enumeration order.

    - [Plain]: an ordinary object ([{}], an object literal, parsed JSON).
    - [Array]: an array; its elements are the properties ["0"], ["1"], ...
      ([length] is not enumerable and so is not listed).
    - [Host c]: an object built by constructor [c] whose content lives in
      internal slots ([Date], [Map], [Blob], [FormData], [ArrayBuffer],
      [ReadableStream], [TypeError], ...).

    Numbers are the integral ones; no function here computes with them. *)

Inductive ObjClass : Type :=
| Plain
| Array
| Host (ctor : string).

#[warnings="-register-all"] Inductive JsVal : Type :=
| VUndefined
| VNull
| VBool (b : bool)
| VNum (n : Z)
| VStr (s : string)
| VObj (cls : ObjClass) (props : list (string * JsVal)).

(** [{}] and a thrown [TypeError]. *)
Definition empty_object : JsVal := VObj Plain [].
Definition TypeError : JsVal := VObj (Host "TypeError") [].

(** ToBoolean. *)
Definition truthy (v : JsVal) : bool :=
  match v with
  | VUndefined | VNull => false
  | VBool b => b
  | VNum n => negb (n =? 0)%Z
  | VStr s => negb (String.eqb s "")
  | VObj _ _ => true
  end.

(** [typeof v === 'object'] (which holds of [null] too). *)
Definition typeof_object (v : JsVal) : bool :=
  match v with
  | VNull | VObj _ _ => true
  | _ => false
  end.

(** [a ?? b] and [a || b]. *)
Definition nullish (v : JsVal) : bool :=
  match v with
  | VUndefined | VNull => true
  | _ => false
  end.

Definition coalesce (a b : JsVal) : JsVal := if nullish a then b else a.
Definition or_else (a b : JsVal) : JsVal := if truthy a then a else b.

(** The characters of a string primitive as the index properties of its
    wrapper object. *)
Fixpoint string_entries (i : nat) (s : string) : list (string * JsVal) :=
  match s with
  | EmptyString => []
  | String c rest => (pretty i, VStr (String c EmptyString)) :: string_entries (S i) rest
  end.

(** [Object.entries(v)] for a non-nullish [v]. *)
Definition Object_entries (v : JsVal) : list (string * JsVal) :=
  match v with
  | VObj _ props => props
  | VStr s => string_entries 0 s
  | _ => []
  end.

(** [Object.keys(v)]. *)
Definition Object_keys (v : JsVal) : list string := List.map fst (Object_entries v).

(** Completion of a call: it returns, or it throws a value.  [Unmodelled]
    marks the one write whose outcome is not computed here: an assignment
    to the [length] of an array, which depends on the number conversion of
    the value written.  It propagates like a throw.  It can only arise
    once an array of the caller has become the body of the parameters; a
    statement about every run is made where that cannot happen
    ([ParamsMore.no_object_body]), and shown there to meet no such write. *)
Inductive Completion (A : Type) : Type :=
| Normal (a : A)
| Throw (e : JsVal)
| Unmodelled.
Arguments Normal {A} a.
Arguments Throw {A} e.
Arguments Unmodelled {A}.

Definition cbind {A B} (c : Completion A) (k : A -> Completion B) : Completion B :=
  match c with
  | Normal a => k a
  | Throw e => Throw e
  | Unmodelled => Unmodelled
  end.

Notation "'let*' x := c 'in' k" := (cbind c (fun x => k))
  (at level 10, x pattern, c at level 100, k at level 200).

(** Sequential loop with early exit on a throw: [for (const x of l) acc = f(acc, x)]. *)
Fixpoint foldC {A B} (f : A -> B -> Completion A) (l : list B) (a : A) : Completion A :=
  match l with
  | [] => Normal a
  | x :: rest => let* a' := f a x in foldC f rest a'
  end.

(** [o[name] = value] on the own properties of an ordinary object: an
    existing property keeps its place, a new one is appended.  (JavaScript
    lists index-like names before the others; of the objects it has written
    to, the code only ever asks whether they have a key at all.) *)
Fixpoint upsert (name : string) (value : JsVal) (props : list (string * JsVal))
  : list (string * JsVal) :=
  match props with
  | [] => [(name, value)]
  | (k, v) :: rest =>
      if String.eqb k name then (k, value) :: rest
      else (k, v) :: upsert name value rest
  end.

(** [target[name] = value] in strict mode (the sources are ES modules).
    - on [undefined] or [null]: TypeError;
    - the name [__proto__] reaches the accessor inherited from
      [Object.prototype], which creates no own property (and does nothing
      at all on a primitive);
    - on any other primitive: TypeError (cannot create a property);
    - on an object: the own property is created or overwritten. *)
Definition set_property (target : JsVal) (name : string) (value : JsVal)
  : Completion JsVal :=
  match target with
  | VUndefined | VNull => Throw TypeError
  | VBool _ | VNum _ | VStr _ =>
      if String.eqb name "__proto__" then Normal target else Throw TypeError
  | VObj cls props =>
      if String.eqb name "__proto__" then Normal target
      else match cls with
           | Array => if String.eqb name "length" then Unmodelled
                      else Normal (VObj cls (upsert name value props))
           | _ => Normal (VObj cls (upsert name value props))
           end
  end.

(** * The parameter mapper, [core/params.ts]

    Arguments are values.  An object that a keyless [Field] makes the body
    is in the code the caller's own object, and a later write by name
    changes it for whoever holds it; here the write goes to its value, and
    is not followed back into the argument list.  The two agree on every
    call in which that object does not occur again later in the list, and
    so whenever no object becomes the body ([ParamsMore.no_object_body]):
    the arguments are then never written to. *)
Module Params.

(** [type Slot = 'body' | 'headers' | 'path' | 'query'] *)
Inductive Slot : Type := Body | Headers | Path | Query.

#[global] Instance Slot_eq_dec : EqDecision Slot.
Proof. solve_decision. Defined.

(** [type Field]: destination slot, source key, optional rename.  The
    declared type requires a key outside the body slot; the code tests
    the key at run time for every slot, and so does the model. *)
Record Field : Type := mkField {
  in_ : Slot;
  key : option string;
  map : option string
}.

(** [interface Fields].  [allowExtra] is an object keyed by slot; it is
    kept as its entries, in the order [Object.entries] lists them. *)
Record Fields : Type := mkFields {
  allowExtra : option (list (Slot * bool));
  args : option (list Field)
}.

(** One element of a [FieldsConfig]; the code tells the two apart with
    ['in' in config]. *)
Inductive FieldOrFields : Type :=
| AField (f : Field)
| AFields (g : Fields).

Definition FieldsConfig : Type := list FieldOrFields.

(** [extraPrefixes = Object.entries(extraPrefixesMap)] *)
Definition extraPrefixes : list (string * Slot) :=
  [("$body_", Body); ("$headers_", Headers); ("$path_", Path); ("$query_", Query)].

(** [type KeyMap = Map<string, { in: Slot; map?: string }>] *)
Abbreviation KeyMap := (gmap string (Slot * option string)).

(** Truthiness of an optional string ([if (config.key)]). *)
Definition present (s : option string) : option string :=
  match s with
  | Some k => if String.eqb k "" then None else Some k
  | None => None
  end.

(** The body of the loop of [buildKeyMap] for a [Field]. *)
Definition setKey (m : KeyMap) (f : Field) : KeyMap :=
  match present (key f) with
  | Some k => <[k := (in_ f, map f)]> m
  | None => m
  end.

(** [buildKeyMap(fields, map)].  The recursive call runs over
    [config.args], whose elements are [Field]s. *)
Fixpoint buildKeyMap_from (fields : FieldsConfig) (m : KeyMap) : KeyMap :=
  match fields with
  | [] => m
  | AField f :: rest => buildKeyMap_from rest (setKey m f)
  | AFields g :: rest =>
      buildKeyMap_from rest
        (match args g with
         | Some fs => fold_left setKey fs m
         | None => m
         end)
  end.

Definition buildKeyMap (fields : FieldsConfig) (m : option KeyMap) : KeyMap :=
  buildKeyMap_from fields (default ∅ m).

(** [interface Params].  A slot is [None] once [delete] has removed it;
    [Some VUndefined] is a slot that is present and holds [undefined]. *)
Record Params : Type := mkParams {
  body : option JsVal;
  headers : option JsVal;
  path : option JsVal;
  query : option JsVal
}.

(** [params[slot]], [params[slot] = v] and [delete params[slot]]. *)
Definition get_slot (p : Params) (s : Slot) : option JsVal :=
  match s with
  | Body => body p
  | Headers => headers p
  | Path => path p
  | Query => query p
  end.

Definition put_slot (p : Params) (s : Slot) (v : option JsVal) : Params :=
  match s with
  | Body => mkParams v (headers p) (path p) (query p)
  | Headers => mkParams (body p) v (path p) (query p)
  | Path => mkParams (body p) (headers p) v (query p)
  | Query => mkParams (body p) (headers p) (path p) v
  end.

Definition delete_slot (p : Params) (s : Slot) : Params := put_slot p s None.

(** [Object.entries(params)] *)
Definition Params_entries (p : Params) : list (Slot * JsVal) :=
  omap (fun s => pair s <$> get_slot p s) [Body; Headers; Path; Query].

(** The test of [stripEmptySlots]:
    [value && typeof value === 'object' && !Object.keys(value).length] *)
Definition is_empty_object (value : JsVal) : bool :=
  truthy value && typeof_object value
  && (List.length (Object_keys value) =? 0)%nat.

(** [stripEmptySlots(params)]: the entries are listed once, then each
    empty one is deleted. *)
Definition stripEmptySlots (params : Params) : Params :=
  fold_left
    (fun p '(slot, value) => if is_empty_object value then delete_slot p slot else p)
    (Params_entries params) params.

(** [(params[slot] as Record<string, unknown>)[name] = value] *)
Definition assign (params : Params) (slot : Slot) (name : string) (value : JsVal)
  : Completion Params :=
  match get_slot params slot with
  | None => Throw TypeError
  | Some target =>
      let* target' := set_property target name value in
      Normal (put_slot params slot (Some target'))
  end.

(** [rename || key] *)
Definition name_of (rename : option string) (k : string) : string :=
  match present rename with
  | Some r => r
  | None => k
  end.

(** [key.slice(prefix.length)] *)
Definition slice_from (n : nat) (k : string) : string :=
  String.substring n (String.length k - n) k.

(** Where a key of an object argument goes under a [Fields] group: the
    three-way decision of the inner loop of [buildClientParams].  A key of
    the lookup goes to its declared slot under its rename; otherwise the
    first reserved prefix it starts with names the slot; otherwise the first
    truthy entry of [allowExtra] does; otherwise nothing is written. *)
Definition route (kmap : KeyMap) (config : Fields) (k : string)
  : option (Slot * string) :=
  match kmap !! k with
  | Some (slot, rename) => Some (slot, name_of rename k)
  | None =>
      match List.find (fun '(prefix, _) => String.prefix prefix k) extraPrefixes with
      | Some (prefix, slot) => Some (slot, slice_from (String.length prefix) k)
      | None =>
          match List.find (fun '(_, allowed) => allowed) (default [] (allowExtra config)) with
          | Some (slot, _) => Some (slot, k)
          | None => None
          end
      end
  end.

(** The body of the loop over the entries of an object argument. *)
Definition place (kmap : KeyMap) (config : Fields) (params : Params)
  (entry : string * JsVal) : Completion Params :=
  let '(k, value) := entry in
  match route kmap config k with
  | Some (slot, name) => assign params slot name value
  | None => Normal params
  end.

(** One iteration of the loop over [args], for the active [config]. *)
Definition step (kmap : KeyMap) (config : FieldOrFields) (params : Params)
  (arg : JsVal) : Completion Params :=
  match config with
  | AField f =>
      match present (key f) with
      | Some k =>
          match kmap !! k with
          | Some (slot, rename) => assign params slot (name_of rename k) arg
          | None => Throw TypeError
          end
      | None => Normal (put_slot params Body (Some arg))
      end
  | AFields g =>
      foldC (place kmap g) (Object_entries (coalesce arg empty_object)) params
  end.

(** The loop over [args.entries()], with the carried [config]. *)
Fixpoint loop (kmap : KeyMap) (fields : FieldsConfig) (index : nat)
  (config : option FieldOrFields) (params : Params) (rest : list JsVal)
  : Completion Params :=
  match rest with
  | [] => Normal params
  | arg :: rest' =>
      let config := match fields !! index with
                    | Some c => Some c
                    | None => config
                    end in
      match config with
      | None => loop kmap fields (S index) config params rest'
      | Some c =>
          let* params' := step kmap c params arg in
          loop kmap fields (S index) config params' rest'
      end
  end.

(** The config entry in force at position [index]: the entry at that
    position if there is one, else the one carried from the position
    before. *)
Fixpoint active (fields : FieldsConfig) (index : nat) : option FieldOrFields :=
  match fields !! index with
  | Some c => Some c
  | None =>
      match index with
      | O => None
      | S before => active fields before
      end
  end.

(** The state of [params] when the loop ends, before stripping. *)
Definition fill (args : list JsVal) (fields : FieldsConfig) : Completion Params :=
  loop (buildKeyMap fields None) fields 0 None
    (mkParams (Some empty_object) (Some empty_object) (Some empty_object) (Some empty_object))
    args.

(** [buildClientParams(args, fields)] *)
Definition buildClientParams (args : list JsVal) (fields : FieldsConfig)
  : Completion Params :=
  let* params := fill args fields in
  Normal (stripEmptySlots params).

(** ** Notions used to state the properties *)

(** What [stripEmptySlots] does to one slot. *)
Definition strip1 (o : option JsVal) : option JsVal :=
  match o with
  | Some v => if is_empty_object v then None else Some v
  | None => None
  end.

(** While the loop runs no slot has been deleted, and the three mapping
    slots hold ordinary objects (they start as [{}] and are only written
    to by property assignment). *)
Definition well_formed (p : Params) : Prop :=
  (exists v, body p = Some v) /\
  forall s, s <> Body -> exists props, get_slot p s = Some (VObj Plain props).

(** The value of the loop variable [config] on entry to iteration [index]. *)
Definition carried (fields : FieldsConfig) (index : nat) : option FieldOrFields :=
  match index with
  | O => None
  | S before => active fields before
  end.




End Params.


(** * The request executor, [client/client.ts] *)
Module Client.

(** [responseStyle: 'data' | 'fields'] *)
Inductive ResponseStyle : Type := StyleData | StyleFields.

(** The parse modes the [switch] of [request] knows, and the option
    [parseAs], which can also be ['auto']. *)
Inductive ParseAs : Type := ArrayBuffer | Blob | FormData | Json | Stream | Text.

Inductive ParseAsOption : Type :=
| Auto
| Fixed (mode : ParseAs).

(** The platform's [Response], as [request] uses it: [status],
    [headers.get(name)], [body] (a stream or [null]) and the body readers,
    each of which may reject. *)
Record Response : Type := mkResponse {
  status : Z;
  headers_get : string -> option string;
  response_body : JsVal;
  arrayBuffer : Completion JsVal;
  blob : Completion JsVal;
  formData : Completion JsVal;
  json : Completion JsVal;
  text : Completion string
}.

(** [response.ok]: the status is in the range 200 to 299. *)
Definition ok (response : Response) : bool :=
  (200 <=? status response)%Z && (status response <=? 299)%Z.

(** An own property of an options object: missing, or present with a
    value (which can be the type's [undefined]). *)
Inductive Own (T : Type) : Type :=
| Missing
| Has (v : T).
Arguments Missing {T}.
Arguments Has {T} v.

(** [o.x] *)
Definition read {T} (undefined : T) (o : Own T) : T :=
  match o with
  | Has v => v
  | Missing => undefined
  end.

(** The property [x] of [{ ...a, ...b }]. *)
Definition spread {T} (undefined : T) (a b : Own T) : T :=
  match b with
  | Has v => v
  | Missing => read undefined a
  end.

Section Executor.

(** Platform classes and the parts of an options object that [request]
    only passes on. *)
Variables (Request Headers HeadersInit Security Rest : Type).

(** The merged options [opts], as far as they are data. *)
Record Opts : Type := mkOpts {
  body : JsVal;
  headers : Headers;
  parseAs : option ParseAsOption;
  responseStyle : option ResponseStyle;
  security : option Security;
  throwOnError : bool;
  rest : Rest
}.

(** The functions among the options.  A callback that receives [opts]
    receives its data, and is taken to leave it as it is. *)
Record Hooks : Type := mkHooks {
  fetch : option (Request -> Completion Response);
  requestValidator : option (Opts -> Completion unit);
  bodySerializer : option (JsVal -> Completion JsVal);
  responseValidator : option (JsVal -> Completion unit);
  responseTransformer : option (JsVal -> Completion JsVal)
}.

(** [Config] and [RequestOptions]: every option may be missing. *)
Record Config : Type := mkConfig {
  body_prop : Own JsVal;
  headers_prop : Own (option HeadersInit);
  parseAs_prop : Own (option ParseAsOption);
  responseStyle_prop : Own (option ResponseStyle);
  security_prop : Own (option Security);
  throwOnError_prop : Own bool;
  rest_prop : Rest;
  fetch_prop : Own (option (Request -> Completion Response));
  requestValidator_prop : Own (option (Opts -> Completion unit));
  bodySerializer_prop : Own (option (JsVal -> Completion JsVal));
  responseValidator_prop : Own (option (JsVal -> Completion unit));
  responseTransformer_prop : Own (option (JsVal -> Completion JsVal))
}.

(** [createInterceptors()]: three lists of functions; an ejected
    interceptor leaves a hole, which the loops skip ([if (fn)]). *)
Record Interceptors : Type := mkInterceptors {
  request_fns : list (option (Request -> Opts -> Completion Request));
  response_fns : list (option (Response -> Request -> Opts -> Completion Response));
  error_fns : list (option (JsVal -> Response -> Request -> Opts -> Completion JsVal))
}.

(** What a call returns: the bare value, or the object
    [{ data | error, request, response }]; a field of the latter is [None]
    when the object has no such key. *)
Record Envelope : Type := mkEnvelope {
  data : option JsVal;
  error : option JsVal;
  request_of : Request;
  response_of : Response
}.

Inductive Result : Type :=
| Bare (value : JsVal)
| Enveloped (envelope : Envelope).

(** The imports of [client.ts] from [./utils], and the platform.
    [setAuthParams] works on a copy that shares the headers and the query
    with [opts]; it is given [opts] and returns it with what it changed.
    [JSON_parse] is [None] where [JSON.parse] throws. *)
Variable mergeHeaders : option HeadersInit -> option HeadersInit -> Headers.
Variable headers_delete : string -> Headers -> Headers.
Variable spread_rest : Rest -> Rest -> Rest.
Variable setAuthParams : Opts -> Security -> Completion Opts.
Variable buildUrl : Opts -> Completion string.
Variable getParseAs : option string -> option ParseAs.
Variable new_Request : string -> Opts -> Completion Request.
Variable globalThis_fetch : option (Request -> Completion Response).
Variable JSON_parse : string -> option JsVal.

(** [{ ..._config, ...options, fetch: ..., headers: ... }] *)
Definition merge_opts (_config options : Config) : Opts :=
  {| body := spread VUndefined (body_prop _config) (body_prop options);
     headers := mergeHeaders (read None (headers_prop _config))
                  (read None (headers_prop options));
     parseAs := spread None (parseAs_prop _config) (parseAs_prop options);
     responseStyle := spread None (responseStyle_prop _config) (responseStyle_prop options);
     security := spread None (security_prop _config) (security_prop options);
     throwOnError := spread false (throwOnError_prop _config) (throwOnError_prop options);
     rest := spread_rest (rest_prop _config) (rest_prop options) |}.

Definition merge_hooks (_config options : Config) : Hooks :=
  {| fetch :=
       match read None (fetch_prop options) with
       | Some f => Some f
       | None =>
           match read None (fetch_prop _config) with
           | Some f => Some f
           | None => globalThis_fetch
           end
       end;
     requestValidator :=
       spread None (requestValidator_prop _config) (requestValidator_prop options);
     bodySerializer :=
       spread None (bodySerializer_prop _config) (bodySerializer_prop options);
     responseValidator :=
       spread None (responseValidator_prop _config) (responseValidator_prop options);
     responseTransformer :=
       spread None (responseTransformer_prop _config) (responseTransformer_prop options) |}.

Definition with_body (opts : Opts) (b : JsVal) : Opts :=
  mkOpts b (headers opts) (parseAs opts) (responseStyle opts) (security opts)
    (throwOnError opts) (rest opts).

Definition with_headers (opts : Opts) (h : Headers) : Opts :=
  mkOpts (body opts) h (parseAs opts) (responseStyle opts) (security opts)
    (throwOnError opts) (rest opts).

(** [opts.body === undefined || opts.body === ''] *)
Definition body_is_empty (b : JsVal) : bool :=
  match b with
  | VUndefined => true
  | VStr s => String.eqb s ""
  | _ => false
  end.

(** Calling an optional function that is there. *)
Definition call_if {A} (f : option (A -> Completion unit)) (a : A) : Completion unit :=
  match f with
  | Some g => g a
  | None => Normal tt
  end.

(** The first half of [request]: from the options to the response that
    leaves the response interceptors, with the final [opts] and request. *)
Definition send (_config : Config) (interceptors : Interceptors) (options : Config)
  : Completion (Opts * Hooks * Request * Response) :=
  let opts := merge_opts _config options in
  let hooks := merge_hooks _config options in
  let* opts := match security opts with
               | Some s => setAuthParams opts s
               | None => Normal opts
               end in
  let* _ := call_if (requestValidator hooks) opts in
  let* opts := match bodySerializer hooks with
               | Some serialize =>
                   if truthy (body opts)
                   then let* b := serialize (body opts) in Normal (with_body opts b)
                   else Normal opts
               | None => Normal opts
               end in
  let opts := if body_is_empty (body opts)
              then with_headers opts (headers_delete "Content-Type" (headers opts))
              else opts in
  let* url := buildUrl opts in
  let* request := new_Request url opts in
  let* request :=
    foldC (fun request fn => match fn with
                             | Some f => f request opts
                             | None => Normal request
                             end)
      (request_fns interceptors) request in
  let* response := match fetch hooks with
                   | Some _fetch => _fetch request
                   | None => Throw TypeError
                   end in
  let* response :=
    foldC (fun response fn => match fn with
                              | Some f => f response request opts
                              | None => Normal response
                              end)
      (response_fns interceptors) response in
  Normal (opts, hooks, request, response).

(** [opts.responseStyle === 'data' ? value : { data: value, ...result }] *)
Definition with_data (opts : Opts) (request : Request) (response : Response)
  (value : JsVal) : Result :=
  match responseStyle opts with
  | Some StyleData => Bare value
  | _ => Enveloped (mkEnvelope (Some value) None request response)
  end.

(** [opts.responseStyle === 'data' ? undefined : { error: finalError, ...result }] *)
Definition with_error (opts : Opts) (request : Request) (response : Response)
  (finalError : JsVal) : Result :=
  match responseStyle opts with
  | Some StyleData => Bare VUndefined
  | _ => Enveloped (mkEnvelope None (Some finalError) request response)
  end.

(** [response.status === 204 || response.headers.get('Content-Length') === '0'] *)
Definition no_content (response : Response) : bool :=
  (status response =? 204)%Z
  || match headers_get response "Content-Length" with
     | Some l => String.eqb l "0"
     | None => false
     end.

(** [(opts.parseAs === 'auto' ? getParseAs(...) : opts.parseAs) ?? 'json'] *)
Definition resolve_parseAs (opts : Opts) (response : Response) : ParseAs :=
  default Json
    match parseAs opts with
    | Some Auto => getParseAs (headers_get response "Content-Type")
    | Some (Fixed mode) => Some mode
    | None => None
    end.

(** [await response[parseAs]()] for the five modes that read the body
    (in mode ['stream'] the call has returned before any read). *)
Definition read_body (response : Response) (mode : ParseAs) : Completion JsVal :=
  match mode with
  | ArrayBuffer => arrayBuffer response
  | Blob => blob response
  | FormData => formData response
  | Json => json response
  | Text => let* s := text response in Normal (VStr s)
  | Stream => Normal VUndefined
  end.

(** The error interceptors: each is called on the initial [error]; the
    value kept is the one the last of them returned. *)
Definition run_error_fns (interceptors : Interceptors) (opts : Opts)
  (request : Request) (response : Response) (error : JsVal) : Completion JsVal :=
  foldC (fun finalError fn => match fn with
                              | Some f => f error response request opts
                              | None => Normal finalError
                              end)
    (error_fns interceptors) error.

(** The second half of [request], from [const result = ...] on. *)
Definition settle (interceptors : Interceptors) (opts : Opts) (hooks : Hooks)
  (request : Request) (response : Response) : Completion Result :=
  if ok response then
    if no_content response then Normal (with_data opts request response empty_object)
    else
      match resolve_parseAs opts response with
      | Stream => Normal (with_data opts request response (response_body response))
      | mode =>
          let* data := read_body response mode in
          let* data :=
            match mode with
            | Json =>
                let* _ := call_if (responseValidator hooks) data in
                match responseTransformer hooks with
                | Some transform => transform data
                | None => Normal data
                end
            | _ => Normal data
            end in
          Normal (with_data opts request response data)
      end
  else
    let* textError := text response in
    let jsonError := default VUndefined (JSON_parse textError) in
    let error := coalesce jsonError (VStr textError) in
    let* finalError := run_error_fns interceptors opts request response error in
    let finalError := or_else finalError empty_object in
    if throwOnError opts then Throw finalError
    else Normal (with_error opts request response finalError).

(** [request(options)], for a client whose configuration is [_config]. *)
Definition request (_config : Config) (interceptors : Interceptors) (options : Config)
  : Completion Result :=
  let* (opts, hooks, request, response) := send _config interceptors options in
  settle interceptors opts hooks request response.

(** The error value of a failed call: [finalError] after the chain. *)
Definition final_error (jsonError : JsVal) (textError : string) : JsVal :=
  or_else (coalesce jsonError (VStr textError)) empty_object.

End Executor.

Arguments body {Headers Security Rest} o.
Arguments headers {Headers Security Rest} o.
Arguments parseAs {Headers Security Rest} o.
Arguments responseStyle {Headers Security Rest} o.
Arguments security {Headers Security Rest} o.
Arguments throwOnError {Headers Security Rest} o.
Arguments rest {Headers Security Rest} o.
Arguments fetch {Request Headers Security Rest} h.
Arguments requestValidator {Request Headers Security Rest} h.
Arguments bodySerializer {Request Headers Security Rest} h.
Arguments responseValidator {Request Headers Security Rest} h.
Arguments responseTransformer {Request Headers Security Rest} h.
Arguments request_fns {Request Headers Security Rest} i.
Arguments response_fns {Request Headers Security Rest} i.
Arguments error_fns {Request Headers Security Rest} i.
Arguments data {Request} e.
Arguments error {Request} e.
Arguments request_of {Request} e.
Arguments response_of {Request} e.
Arguments with_data {Request Headers Security Rest} opts request response value.
Arguments with_error {Request Headers Security Rest} opts request response finalError.
Arguments mkOpts {Headers Security Rest}.
Arguments mkHooks {Request Headers Security Rest}.
Arguments mkConfig {Request Headers HeadersInit Security Rest}.
Arguments mkInterceptors {Request Headers Security Rest}.
Arguments mkEnvelope {Request}.
Arguments Bare {Request}.
Arguments Enveloped {Request}.

(** ** A concrete transport

    To run [request] on a given response: a request is its URL, headers
    and security schemes carry nothing, the options hold the URL, and the
    transport answers every request with the one response. *)

(** A response with the given status, [Content-Length] header and body
    text, which only [text()] reads. *)
Definition plain_response (st : Z) (content_length : option string) (txt : string)
  : Response :=
  mkResponse st
    (fun name => if String.eqb name "Content-Length" then content_length else None)
    VNull (Throw TypeError) (Throw TypeError) (Throw TypeError) (Throw TypeError)
    (Normal txt).

(** [JSON.parse] on the JSON texts used below; it is not defined here on
    any other text. *)
Definition JSON_parse_literal (txt : string) : option JsVal :=
  if String.eqb txt "null" then Some VNull
  else if String.eqb txt "true" then Some (VBool true)
  else if String.eqb txt "false" then Some (VBool false)
  else if String.eqb txt "0" then Some (VNum 0)
  else if String.eqb txt "{}" then Some empty_object
  else None.

(** Options that set a response style, [throwOnError], a parse mode and
    the transport, and nothing else. *)
Definition options_for (style : option ResponseStyle) (throws : bool)
  (mode : option ParseAsOption) (response : Response)
  : Config string unit unit unit string :=
  mkConfig Missing Missing (Has mode) (Has style) Missing (Has throws) "/"
    (Has (Some (fun _ : string => Normal response))) Missing Missing Missing Missing.

(** The merged options and functions of such a call. *)
Definition opts_for (style : option ResponseStyle) (throws : bool)
  (mode : option ParseAsOption) : Opts unit unit string :=
  mkOpts VUndefined tt mode style None throws "/".

Definition hooks_for (response : Response) : Hooks string unit unit string :=
  mkHooks (Some (fun _ : string => Normal response)) None None None None.

(** [send] and [request] of a client created without configuration and
    without interceptors, on the concrete transport. *)
Definition send_on (options : Config string unit unit unit string)
  : Completion (Opts unit unit string * Hooks string unit unit string * string * Response) :=
  send string unit unit unit string
    (fun _ _ => tt) (fun _ h => h) (fun _ b => b)
    (fun opts _ => Normal opts) (fun opts => Normal (rest opts))
    (fun url _ => Normal url) None
    (mkConfig Missing Missing Missing Missing Missing Missing ""
       Missing Missing Missing Missing Missing)
    (mkInterceptors [] [] [])
    options.

Definition request_on (options : Config string unit unit unit string)
  : Completion (Result string) :=
  request string unit unit unit string
    (fun _ _ => tt) (fun _ h => h) (fun _ b => b)
    (fun opts _ => Normal opts) (fun opts => Normal (rest opts))
    (fun _ => None) (fun url _ => Normal url) None JSON_parse_literal
    (mkConfig Missing Missing Missing Missing Missing Missing ""
       Missing Missing Missing Missing Missing)
    (mkInterceptors [] [] [])
    options.

End Client.

(** * The platform services of [apps/whispering] *)
Module Services.

(** [Result<T, E>] of [wellcrafted/result]. *)
Inductive Result (T E : Type) : Type :=
| Ok (data : T)
| Err (error : E).
Arguments Ok {T E} data.
Arguments Err {T E} error.

(** A tagged error: its tag, a message for people, the context of the
    call and the value that was caught. *)
Record TaggedError : Type := mkTaggedError {
  name : string;
  message : string;
  context : JsVal;
  cause : JsVal
}.

(** [createTaggedError(name)] of [wellcrafted/error] yields the pair
    [XError] / [XErr]; the second builds the tagged error and wraps it in
    [Err], ready to be returned. *)
Definition createTaggedErr {T} (tag : string) (msg : string) (ctx cse : JsVal)
  : Result T TaggedError :=
  Err (mkTaggedError tag msg ctx cse).

Definition PermissionsServiceErr {T} (msg : string) (cse : JsVal) : Result T TaggedError :=
  createTaggedErr "PermissionsServiceError" msg VUndefined cse.

(** Modelled from the spec: [FfmpegServiceErr] is declared in
    [services/ffmpeg/types.ts], which is not among the sources.  The
    specification describes the errors of the collaborator services as "a
    tagged error carrying a human-readable message and the triggering cause,
    returned (never thrown) from the collaborator call". *)
Definition FfmpegServiceErr {T} (msg : string) (ctx cse : JsVal) : Result T TaggedError :=
  createTaggedErr "FfmpegServiceError" msg ctx cse.

(** Modelled from the spec: [NotificationServiceErr] is declared in
    [services/notifications/types.ts], which is not among the sources; it
    is the same kind of tagged error. *)
Definition NotificationServiceErr {T} (msg : string) (ctx cse : JsVal)
  : Result T TaggedError :=
  createTaggedErr "NotificationServiceError" msg ctx cse.

(** An entry of the platform's list of active notifications. *)
Record ActiveNotification : Type := mkActiveNotification {
  id : Z;
  details : JsVal
}.

Definition ActiveNotification_value (n : ActiveNotification) : JsVal :=
  VObj Plain [("id", VNum (id n)); ("details", details n)].

(** The calls into the platform: the macOS permissions plugin (and its
    dynamic import) and the notification plugin. *)
Inductive ApiCall : Type -> Type :=
| import_macos_permissions : ApiCall unit
| checkAccessibilityPermission : ApiCall bool
| requestAccessibilityPermission : ApiCall JsVal
| checkMicrophonePermission : ApiCall bool
| requestMicrophonePermission : ApiCall JsVal
| active : ApiCall (list ActiveNotification)
| removeActive (notifications : list ActiveNotification) : ApiCall unit.

(** An [async] function body: it resolves, it rejects, or it awaits a
    platform call and goes on with the value the call resolved to, or with
    the value it rejected with. *)
Inductive Async (A : Type) : Type :=
| Resolve (a : A)
| Reject (e : JsVal)
| Await {X : Type} (call : ApiCall X) (k : X -> Async A) (h : JsVal -> Async A).
Arguments Resolve {A} a.
Arguments Reject {A} e.
Arguments Await {A X} call k h.

(** [await call()] outside any [try]. *)
Definition perform {X} (call : ApiCall X) : Async X := Await call Resolve Reject.

Fixpoint abind {A B} (p : Async A) (f : A -> Async B) : Async B :=
  match p with
  | Resolve a => f a
  | Reject e => Reject e
  | Await call k h => Await call (fun x => abind (k x) f) (fun e => abind (h e) f)
  end.

Notation "'await' x := p 'in' k" := (abind p (fun x => k))
  (at level 10, x pattern, p at level 100, k at level 200).

(** [tryAsync({ try, catch })] of [wellcrafted/result]: the value of [try]
    in [Ok], or what [catch] makes of the rejection. *)
Fixpoint tryAsync {T E} (try : Async T) (catch : JsVal -> Result T E)
  : Async (Result T E) :=
  match try with
  | Resolve a => Resolve (Ok a)
  | Reject e => Resolve (catch e)
  | Await call k h =>
      Await call (fun x => tryAsync (k x) catch) (fun e => tryAsync (h e) catch)
  end.

(** ** Running a body against a platform *)

(** A platform call that was made. *)
Definition Called : Type := { X : Type & ApiCall X }.
Definition called {X} (call : ApiCall X) : Called := existT X call.

Section Run.

Variable World : Type.
(** What the platform answers to a call, and what the call leaves behind:
    [inl] for a value, [inr] for a rejection. *)
Variable platform : forall X, ApiCall X -> World -> (X + JsVal) * World.

(** The calls made in order, how the body settled, and the world after. *)
Fixpoint run {A} (p : Async A) (w : World) : list Called * Completion A * World :=
  match p with
  | Resolve a => ([], Normal a, w)
  | Reject e => ([], Throw e, w)
  | Await call k h =>
      let '(answer, w') := platform _ call w in
      let '(calls, settled, w'') :=
        run (match answer with inl x => k x | inr e => h e end) w' in
      (called call :: calls, settled, w'')
  end.

End Run.

(** ** [services/permissions]: [createPermissionsService] *)

Record Permission : Type := mkPermission {
  check : Async (Result bool TaggedError);
  request : Async (Result JsVal TaggedError)
}.

Record PermissionsService : Type := mkPermissionsService {
  accessibility : Permission;
  microphone : Permission
}.

Section Permissions.

(** [IS_MACOS] of [$lib/constants/platform] and [extractErrorMessage] of
    [wellcrafted/error]. *)
Variable IS_MACOS : bool.
Variable extractErrorMessage : JsVal -> string.

Definition createPermissionsService : PermissionsService :=
  {| accessibility :=
       {| check :=
            if negb IS_MACOS then Resolve (Ok true)
            else tryAsync
                   (await _ := perform import_macos_permissions in
                    perform checkAccessibilityPermission)
                   (fun error =>
                      PermissionsServiceErr
                        ("Failed to check accessibility permissions: "
                         ++ extractErrorMessage error) error);
          request :=
            if negb IS_MACOS then Resolve (Ok (VBool true))
            else tryAsync
                   (await _ := perform import_macos_permissions in
                    perform requestAccessibilityPermission)
                   (fun error =>
                      PermissionsServiceErr
                        ("Failed to request accessibility permissions: "
                         ++ extractErrorMessage error) error) |};
     microphone :=
       {| check :=
            if negb IS_MACOS then Resolve (Ok true)
            else tryAsync
                   (await _ := perform import_macos_permissions in
                    perform checkMicrophonePermission)
                   (fun error =>
                      PermissionsServiceErr
                        ("Failed to check microphone permissions: "
                         ++ extractErrorMessage error) error);
          request :=
            if negb IS_MACOS then Resolve (Ok (VBool true))
            else tryAsync
                   (await _ := perform import_macos_permissions in
                    perform requestMicrophonePermission)
                   (fun error =>
                      PermissionsServiceErr
                        ("Failed to request microphone permissions: "
                         ++ extractErrorMessage error) error) |} |}.

End Permissions.

(** ** [services/ffmpeg/web.ts]: [createFfmpegServiceWeb] *)

Record FfmpegService : Type := mkFfmpegService {
  checkInstalled : Async (Result bool TaggedError);
  compressAudioBlob : JsVal -> string -> Async (Result JsVal TaggedError)
}.

Definition createFfmpegServiceWeb : FfmpegService :=
  {| checkInstalled := Resolve (Ok false);
     compressAudioBlob _blob compressionOptions :=
       Resolve
         (FfmpegServiceErr
            "Audio compression is not available in the web version. FFmpeg is only supported in the desktop application."
            (VObj Plain [("compressionOptions", VStr compressionOptions)])
            VUndefined) |}.

(** ** [services/notifications/desktop.ts] *)

Section Notifications.

(** [hashNanoidToNumber] of [./types]. *)
Variable hashNanoidToNumber : string -> Z.

Definition removeNotificationById (id_ : Z) : Async (Result unit TaggedError) :=
  await listed :=
    tryAsync (perform active)
      (fun error =>
         NotificationServiceErr "Unable to retrieve active desktop notifications."
           (VObj Plain [("id", VNum id_)]) error) in
  match listed with
  | Err activeNotificationsError => Resolve (Err activeNotificationsError)
  | Ok activeNotifications =>
      match List.find (fun notification => (id notification =? id_)%Z) activeNotifications with
      | Some matchingActiveNotification =>
          await removed :=
            tryAsync (perform (removeActive [matchingActiveNotification]))
              (fun error =>
                 NotificationServiceErr
                   ("Unable to remove notification with id " ++ pretty id_ ++ ".")
                   (VObj Plain
                      [("id", VNum id_);
                       ("matchingActiveNotification",
                        ActiveNotification_value matchingActiveNotification)])
                   error) in
          match removed with
          | Err removeActiveError => Resolve (Err removeActiveError)
          | Ok _ => Resolve (Ok tt)
          end
      | None => Resolve (Ok tt)
      end
  end.

(** The [clear] of [createNotificationServiceDesktop]. *)
Definition clear (idStringified : string) : Async (Result unit TaggedError) :=
  removeNotificationById (hashNanoidToNumber idStringified).

End Notifications.

(** ** A concrete platform

    A platform without state that lists the given active notifications,
    grants every permission and lets every call succeed. *)
Definition listing_platform (listed : list ActiveNotification)
  (X : Type) (call : ApiCall X) (w : unit) : (X + JsVal) * unit :=
  match call in ApiCall T return (T + JsVal) * unit with
  | import_macos_permissions => (inl tt, w)
  | checkAccessibilityPermission => (inl true, w)
  | requestAccessibilityPermission => (inl VUndefined, w)
  | checkMicrophonePermission => (inl true, w)
  | requestMicrophonePermission => (inl VUndefined, w)
  | active => (inl listed, w)
  | removeActive _ => (inl tt, w)
  end.

End Services.

(** * Further notions about the parameter mapper *)
Module ParamsMore.
Import Params.

(** [o[name]] on the own properties of an object: the value of the first
    entry of that name. *)
Fixpoint lookup_prop (name : string) (props : list (string * JsVal)) : option JsVal :=
  match props with
  | [] => None
  | (k, v) :: rest => if String.eqb k name then Some v else lookup_prop name rest
  end.

Definition read_prop (v : JsVal) (name : string) : option JsVal :=
  lookup_prop name (Object_entries v).

(** The fields [buildKeyMap] visits: the [Field]s of the config and those
    in the [args] of its [Fields] groups. *)
Definition declared (fields : FieldsConfig) (f : Field) : Prop :=
  In (AField f) fields \/
  exists g fs, In (AFields g) fields /\ args g = Some fs /\ In f fs.



(** An argument without entries: [undefined], [null], a boolean or a
    number. *)
Definition inert (arg : JsVal) : bool :=
  match arg with
  | VUndefined | VNull | VBool _ | VNum _ => true
  | _ => false
  end.

(** The result [{}], every slot stripped, and the result with one slot. *)
Definition no_params : Params := mkParams None None None None.

Definition only_slot (s : Slot) (v : JsVal) : Params := put_slot no_params s (Some v).




End ParamsMore.

(** * The stages of [request] *)
Module ClientStages.
Import Client.

Section Executor.

Variables (Request Headers HeadersInit Security Rest : Type).
Variable mergeHeaders : option HeadersInit -> option HeadersInit -> Headers.
Variable headers_delete : string -> Headers -> Headers.
Variable spread_rest : Rest -> Rest -> Rest.
Variable setAuthParams : Opts Headers Security Rest -> Security
                         -> Completion (Opts Headers Security Rest).
Variable buildUrl : Opts Headers Security Rest -> Completion string.
Variable new_Request : string -> Opts Headers Security Rest -> Completion Request.
Variable globalThis_fetch : option (Request -> Completion Response).

(** [request] up to [new Request(url, requestInit)]: the merged options
    after authentication, validation and body serialisation, and the
    request built from them. *)
Definition build (_config options : Config Request Headers HeadersInit Security Rest)
  : Completion (Opts Headers Security Rest * Hooks Request Headers Security Rest * Request) :=
  let opts := merge_opts Request Headers HeadersInit Security Rest mergeHeaders
                spread_rest _config options in
  let hooks := merge_hooks Request Headers HeadersInit Security Rest globalThis_fetch
                 _config options in
  let* opts := match security opts with
               | Some s => setAuthParams opts s
               | None => Normal opts
               end in
  let* _ := call_if (requestValidator hooks) opts in
  let* opts := match bodySerializer hooks with
               | Some serialize =>
                   if truthy (body opts)
                   then let* b := serialize (body opts) in
                        Normal (with_body Headers Security Rest opts b)
                   else Normal opts
               | None => Normal opts
               end in
  let opts := if body_is_empty (body opts)
              then with_headers Headers Security Rest opts
                     (headers_delete "Content-Type" (headers opts))
              else opts in
  let* url := buildUrl opts in
  let* request := new_Request url opts in
  Normal (opts, hooks, request).

(** The loop over [interceptors.request._fns]. *)
Definition run_request_fns
  (fns : list (option (Request -> Opts Headers Security Rest -> Completion Request)))
  (opts : Opts Headers Security Rest) (request : Request) : Completion Request :=
  foldC (fun request fn => match fn with
                           | Some f => f request opts
                           | None => Normal request
                           end) fns request.

(** The loop over [interceptors.response._fns]. *)
Definition run_response_fns
  (fns : list (option (Response -> Request -> Opts Headers Security Rest
                       -> Completion Response)))
  (opts : Opts Headers Security Rest) (request : Request) (response : Response)
  : Completion Response :=
  foldC (fun response fn => match fn with
                            | Some f => f response request opts
                            | None => Normal response
                            end) fns response.

(** [await _fetch(request)] *)
Definition transport (hooks : Hooks Request Headers Security Rest) (request : Request)
  : Completion Response :=
  match fetch hooks with
  | Some _fetch => _fetch request
  | None => Throw TypeError
  end.

End Executor.

Arguments run_request_fns {Request Headers Security Rest} fns opts request.
Arguments run_response_fns {Request Headers Security Rest} fns opts request response.
Arguments transport {Request Headers Security Rest} hooks request.

(** ** What a call hands back *)

Section Outcome.

Variables (Request Headers Security Rest : Type).
Variable getParseAs : option string -> option ParseAs.
Variable JSON_parse : string -> option JsVal.

(** The value a call returns as its data after a 2xx response: [{}] for a
    response without content; [response.body] in mode ['stream']; otherwise
    what the body reader of the mode resolved to, and in mode ['json'] that
    value once the response validator has accepted it, as the response
    transformer, if there is one, has mapped it. *)
Definition returned_data (opts : Opts Headers Security Rest)
  (hooks : Hooks Request Headers Security Rest) (response : Response) (value : JsVal)
  : Prop :=
  if no_content response then value = empty_object
  else
    match resolve_parseAs Headers Security Rest getParseAs opts response with
    | Stream => value = response_body response
    | Json =>
        exists parsed,
          json response = Normal parsed /\
          call_if (responseValidator hooks) parsed = Normal tt /\
          match responseTransformer hooks with
          | Some transform => transform parsed = Normal value
          | None => value = parsed
          end
    | mode => read_body response mode = Normal value
    end.

(** The value a call returns as its error after any other response: what
    the error interceptors made of the parsed body (of the text where it
    does not parse, or parses to [null]), or [{}] where that is falsy. *)
Definition returned_error (interceptors : Interceptors Request Headers Security Rest)
  (opts : Opts Headers Security Rest) (request : Request) (response : Response)
  (value : JsVal) : Prop :=
  exists textError finalError,
    text response = Normal textError /\
    run_error_fns Request Headers Security Rest interceptors opts request response
      (coalesce (default VUndefined (JSON_parse textError)) (VStr textError))
    = Normal finalError /\
    value = or_else finalError empty_object.

End Outcome.

Arguments returned_data {Request Headers Security Rest} getParseAs opts hooks response value.
Arguments returned_error {Request Headers Security Rest} JSON_parse interceptors opts
  request response value.

(** ** On the concrete transport *)

(** Options that set the body, the body serializer, the request
    validator, the response validator and the transport. *)
Definition options_with (b : Own JsVal)
  (serialize : option (JsVal -> Completion JsVal))
  (validate : option (Opts unit unit string -> Completion unit))
  (validate_response : option (JsVal -> Completion unit))
  (_fetch : string -> Completion Response)
  : Config string unit unit unit string :=
  mkConfig b Missing Missing Missing Missing Missing "/"
    (Has (Some _fetch)) (Has validate) (Has serialize) (Has validate_response) Missing.

(** [request], [build] and the second half of [request] for a client
    without configuration, with the given interceptors. *)
Definition request_with (interceptors : Interceptors string unit unit string)
  (options : Config string unit unit unit string) : Completion (Result string) :=
  request string unit unit unit string
    (fun _ _ => tt) (fun _ h => h) (fun _ b => b)
    (fun opts _ => Normal opts) (fun opts => Normal (rest opts))
    (fun _ => None) (fun url _ => Normal url) None JSON_parse_literal
    (mkConfig Missing Missing Missing Missing Missing Missing ""
       Missing Missing Missing Missing Missing)
    interceptors options.

Definition send_with (interceptors : Interceptors string unit unit string)
  (options : Config string unit unit unit string)
  : Completion (Opts unit unit string * Hooks string unit unit string * string * Response) :=
  send string unit unit unit string
    (fun _ _ => tt) (fun _ h => h) (fun _ b => b)
    (fun opts _ => Normal opts) (fun opts => Normal (rest opts))
    (fun url _ => Normal url) None
    (mkConfig Missing Missing Missing Missing Missing Missing ""
       Missing Missing Missing Missing Missing)
    interceptors options.

Definition build_on (options : Config string unit unit unit string)
  : Completion (Opts unit unit string * Hooks string unit unit string * string) :=
  build string unit unit unit string
    (fun _ _ => tt) (fun _ h => h) (fun _ b => b)
    (fun opts _ => Normal opts) (fun opts => Normal (rest opts))
    (fun url _ => Normal url) None
    (mkConfig Missing Missing Missing Missing Missing Missing ""
       Missing Missing Missing Missing Missing)
    options.

Definition settle_on (interceptors : Interceptors string unit unit string)
  (opts : Opts unit unit string) (hooks : Hooks string unit unit string)
  (request : string) (response : Response) : Completion (Result string) :=
  settle string unit unit string (fun _ => None) JSON_parse_literal
    interceptors opts hooks request response.

(** A 200 response whose body is the given JSON value and text. *)
Definition json_response (parsed : JsVal) (txt : string) : Response :=
  mkResponse 200 (fun _ => None) VNull (Throw TypeError) (Throw TypeError)
    (Throw TypeError) (Normal parsed) (Normal txt).

End ClientStages.

(** * [notify] of the desktop notification service *)
Module Notify.
Import Services.

(** A platform on which every call rejects with the given value. *)
Definition rejecting_platform (e : JsVal) (X : Type) (call : ApiCall X) (w : unit)
  : (X + JsVal) * unit := (inr e, w).

(** [UnifiedNotificationOptions], as [notify] reads it: the optional id,
    the title and the description. *)
Record UnifiedNotificationOptions : Type := mkOptions {
  options_id : option string;
  title : string;
  description : string
}.

(** The calls [notify] makes: those of [removeNotificationById], the id
    generator [nanoid()], and the permission and send calls of the
    notification plugin. *)
Inductive Call : Type -> Type :=
| plugin {X : Type} (call : ApiCall X) : Call X
| nanoid : Call string
| isPermissionGranted : Call bool
| requestPermission : Call string
| sendNotification (options : JsVal) : Call unit.

(** An [async] function body over these calls. *)
Inductive Task (A : Type) : Type :=
| Done (a : A)
| Fail (e : JsVal)
| Step {X : Type} (call : Call X) (k : X -> Task A) (h : JsVal -> Task A).
Arguments Done {A} a.
Arguments Fail {A} e.
Arguments Step {A X} call k h.

Definition invoke {X} (call : Call X) : Task X := Step call Done Fail.

Fixpoint tbind {A B} (p : Task A) (f : A -> Task B) : Task B :=
  match p with
  | Done a => f a
  | Fail e => Fail e
  | Step call k h => Step call (fun x => tbind (k x) f) (fun e => tbind (h e) f)
  end.

Notation "'wait' x := p 'in' k" := (tbind p (fun x => k))
  (at level 10, x pattern, p at level 100, k at level 200).

(** [tryAsync({ try, catch })] over these calls. *)
Fixpoint tryTask {T E} (try : Task T) (catch : JsVal -> Result T E) : Task (Result T E) :=
  match try with
  | Done a => Done (Ok a)
  | Fail e => Done (catch e)
  | Step call k h =>
      Step call (fun x => tryTask (k x) catch) (fun e => tryTask (h e) catch)
  end.

(** A body of the service, run as part of [notify]. *)
Fixpoint lift {A} (p : Async A) : Task A :=
  match p with
  | Resolve a => Done a
  | Reject e => Fail e
  | Await call k h => Step (plugin call) (fun x => lift (k x)) (fun e => lift (h e))
  end.

Definition Made : Type := { X : Type & Call X }.
Definition made {X} (call : Call X) : Made := existT X call.

(** A call of the service, as a call of [notify]. *)
Definition plugin_call (c : Called) : Made := made (plugin (projT2 c)).

Section Run.

Variable World : Type.
Variable platform : forall X, Call X -> World -> (X + JsVal) * World.

Fixpoint run_task {A} (p : Task A) (w : World) : list Made * Completion A * World :=
  match p with
  | Done a => ([], Normal a, w)
  | Fail e => ([], Throw e, w)
  | Step call k h =>
      let '(answer, w') := platform _ call w in
      let '(calls, settled, w'') :=
        run_task (match answer with inl x => k x | inr e => h e end) w' in
      (made call :: calls, settled, w'')
  end.

End Run.

Section Notify.

(** [hashNanoidToNumber] and [toTauriNotification] of [./types]; the
    second answers [inr] when it throws. *)
Variable hashNanoidToNumber : string -> Z.
Variable toTauriNotification : UnifiedNotificationOptions -> JsVal + JsVal.

(** [{ ...tauriOptions, id }] *)
Definition with_id (tauriOptions : JsVal) (id_ : Z) : JsVal :=
  VObj Plain (upsert "id" (VNum id_) (Object_entries (coalesce tauriOptions empty_object))).

Definition notify (options : UnifiedNotificationOptions)
  : Task (Result string TaggedError) :=
  wait idStringified :=
    match options_id options with
    | Some given => Done given
    | None => invoke nanoid
    end in
  let id_ := hashNanoidToNumber idStringified in
  wait _ := lift (removeNotificationById id_) in
  wait sent :=
    tryTask
      (wait permissionGranted := invoke isPermissionGranted in
       wait permissionGranted :=
         if permissionGranted then Done true
         else (wait permission := invoke requestPermission in
               Done (String.eqb permission "granted")) in
       if permissionGranted
       then match toTauriNotification options with
            | inl tauriOptions => invoke (sendNotification (with_id tauriOptions id_))
            | inr e => Fail e
            end
       else Done tt)
      (fun error =>
         NotificationServiceErr "Could not send notification"
           (VObj Plain [("idStringified", VStr idStringified);
                        ("title", VStr (title options));
                        ("description", VStr (description options))])
           error) in
  match sent with
  | Err notifyError => Done (Err notifyError)
  | Ok _ => Done (Ok idStringified)
  end.

End Notify.

(** A platform without state on which the permission check answers as
    told (or rejects), a permission request is answered with the given
    string, nothing is active and every other call succeeds. *)
Definition quiet_platform (granted : bool + JsVal) (answer : string)
  (X : Type) (call : Call X) (w : unit) : (X + JsVal) * unit :=
  match call in Call T return (T + JsVal) * unit with
  | plugin inner => listing_platform [] _ inner w
  | nanoid => (inl "V1StGXR8_Z5jdHi6B-myT", w)
  | isPermissionGranted => (granted, w)
  | requestPermission => (inl answer, w)
  | sendNotification _ => (inl tt, w)
  end.

(** A conversion that keeps the title and brings an [id] of its own. *)
Definition titled (options : UnifiedNotificationOptions) : JsVal + JsVal :=
  inl (VObj Plain [("id", VNum 0); ("title", VStr (title options))]).

End Notify.

(** * Completions *)

Lemma cbind_Normal {A B} (c : Completion A) (k : A -> Completion B) (b : B) :
  cbind c k = Normal b -> exists a, c = Normal a /\ k a = Normal b.
Proof. destruct c; simpl; try discriminate. eauto. Qed.

Lemma foldC_invariant {A B} (P : A -> Prop) (f : A -> B -> Completion A) (l : list B) :
  (forall a x a', In x l -> P a -> f a x = Normal a' -> P a') ->
  forall a r, P a -> foldC f l a = Normal r -> P r.
Proof.
  induction l as [| x rest IH]; simpl; intros Hf a r Ha Hr.
  - now injection Hr as <-.
  - apply cbind_Normal in Hr as (a' & Hx & Hr).
    apply (IH (fun a0 y a1 Hy => Hf a0 y a1 (or_intror Hy)) a' r); [| exact Hr].
    eapply Hf; eauto.
Qed.

(** * Properties of the parameter mapper *)
Module ParamsTheory.
Import Params.

(** ** Values and property writes *)

Lemma is_empty_object_spec (v : JsVal) :
  is_empty_object v = true <-> exists cls, v = VObj cls [].
Proof.
  unfold is_empty_object. split.
  - destruct v as [| | b | n | s | cls props]; simpl;
      try discriminate; try (rewrite andb_false_r; discriminate).
    destruct props; [eauto | discriminate].
  - intros [cls ->]. reflexivity.
Qed.


Lemma upsert_has_key (name : string) (value : JsVal) (props : list (string * JsVal)) :
  In name (List.map fst (upsert name value props)).
Proof.
  induction props as [| [k0 v0] rest IH]; simpl; [now left |].
  destruct (String.eqb k0 name) eqn:E; simpl; [| now right].
  apply String.eqb_eq in E. now left.
Qed.


Lemma set_property_plain (props : list (string * JsVal)) (name : string) (value t' : JsVal) :
  set_property (VObj Plain props) name value = Normal t' ->
  exists props', t' = VObj Plain props'.
Proof.
  unfold set_property. destruct (String.eqb name "__proto__"); intros [= <-]; eauto.
Qed.

(** ** Slots *)

Lemma get_put_same (p : Params) (s : Slot) (v : option JsVal) :
  get_slot (put_slot p s v) s = v.
Proof. now destruct s. Qed.

Lemma get_put_other (p : Params) (s s' : Slot) (v : option JsVal) :
  s <> s' -> get_slot (put_slot p s v) s' = get_slot p s'.
Proof. destruct s, s'; simpl; congruence. Qed.

Lemma stripEmptySlots_fields (p : Params) :
  stripEmptySlots p
  = mkParams (strip1 (body p)) (strip1 (headers p)) (strip1 (path p)) (strip1 (query p)).
Proof.
  destruct p as [[b |] [h |] [pa |] [q |]];
    unfold stripEmptySlots, Params_entries; simpl;
    repeat match goal with
           | |- context [is_empty_object ?v] => destruct (is_empty_object v); simpl
           end; reflexivity.
Qed.

Lemma stripEmptySlots_slot (p : Params) (s : Slot) :
  get_slot (stripEmptySlots p) s = strip1 (get_slot p s).
Proof. rewrite stripEmptySlots_fields. now destruct s. Qed.

Lemma strip1_idempotent (o : option JsVal) : strip1 (strip1 o) = strip1 o.
Proof.
  destruct o as [v |]; simpl; [| reflexivity].
  destruct (is_empty_object v) eqn:E; simpl; [reflexivity | now rewrite E].
Qed.

(** C8. [stripEmptySlots] is idempotent: on every [Params] object (whatever
    its slots hold, and whichever of them are already deleted) a second
    application changes nothing. *)
Theorem stripEmptySlots_idempotent (p : Params) :
  stripEmptySlots (stripEmptySlots p) = stripEmptySlots p.
Proof.
  rewrite !stripEmptySlots_fields. simpl. now rewrite !strip1_idempotent.
Qed.


(** ** Invariants of the loop *)

Lemma assign_well_formed (p p' : Params) (slot : Slot) (name : string) (value : JsVal) :
  well_formed p -> assign p slot name value = Normal p' -> well_formed p'.
Proof.
  intros [[b Hb] Hm] H. unfold assign in H.
  destruct (get_slot p slot) as [target |] eqn:Ht; [| discriminate].
  apply cbind_Normal in H as (t' & Hset & [= <-]).
  destruct (decide (slot = Body)) as [-> | Hne].
  - split; [eexists; reflexivity |]. intros s Hs.
    rewrite get_put_other by congruence. auto.
  - split.
    + exists b. destruct slot; simpl; congruence.
    + intros s Hs. destruct (decide (slot = s)) as [<- | Hss].
      * rewrite get_put_same. destruct (Hm slot Hne) as [props Hp].
        rewrite Hp in Ht. injection Ht as <-.
        destruct (set_property_plain _ _ _ _ Hset) as [props' ->]. eauto.
      * rewrite get_put_other by exact Hss. auto.
Qed.

Lemma step_well_formed (kmap : KeyMap) (c : FieldOrFields) (p p' : Params) (arg : JsVal) :
  well_formed p -> step kmap c p arg = Normal p' -> well_formed p'.
Proof.
  intros Hp H. destruct c as [f | g]; simpl in H.
  - destruct (present (key f)) as [k |].
    + destruct (kmap !! k) as [[slot rename] |]; [| discriminate].
      eapply assign_well_formed; eauto.
    + injection H as <-. destruct Hp as [_ Hm].
      split; [eexists; reflexivity |]. intros s Hs.
      specialize (Hm s Hs). destruct s; simpl in *; [congruence | exact Hm ..].
  - revert H. apply foldC_invariant; [| exact Hp].
    intros a [k v] a' _ Ha Hf. simpl in Hf.
    destruct (route kmap g k) as [[slot name] |].
    + eapply assign_well_formed; eauto.
    + now injection Hf as <-.
Qed.

Lemma loop_well_formed (kmap : KeyMap) (fields : FieldsConfig) (rest : list JsVal) :
  forall index config p p',
    well_formed p -> loop kmap fields index config p rest = Normal p' -> well_formed p'.
Proof.
  induction rest as [| arg rest IH]; simpl; intros index config p p' Hp H.
  - now injection H as <-.
  - destruct (match fields !! index with Some c => Some c | None => config end) as [c |].
    + apply cbind_Normal in H as (q & Hstep & H).
      eapply IH; [| exact H]. eapply step_well_formed; eauto.
    + eapply IH; eauto.
Qed.

Lemma fill_well_formed (args : list JsVal) (fields : FieldsConfig) (q : Params) :
  fill args fields = Normal q -> well_formed q.
Proof.
  apply loop_well_formed. split; [eexists; reflexivity |].
  intros s Hs. exists []. destruct s; [congruence | reflexivity ..].
Qed.


(** ** The lookup and the carried config *)

Lemma setKey_keeps (m : KeyMap) (f : Field) (k : string) :
  is_Some (m !! k) -> is_Some (setKey m f !! k).
Proof.
  intros H. unfold setKey. destruct (present (key f)) as [k0 |]; [| exact H].
  apply lookup_insert_is_Some. destruct (decide (k0 = k)); auto.
Qed.

Lemma fold_setKey_keeps (fs : list Field) (m : KeyMap) (k : string) :
  is_Some (m !! k) -> is_Some (fold_left setKey fs m !! k).
Proof.
  revert m. induction fs as [| f fs IH]; simpl; intros m H; [exact H |].
  apply IH. now apply setKey_keeps.
Qed.

Lemma buildKeyMap_from_keeps (fields : FieldsConfig) (m : KeyMap) (k : string) :
  is_Some (m !! k) -> is_Some (buildKeyMap_from fields m !! k).
Proof.
  revert m. induction fields as [| [f | g] rest IH]; simpl; intros m H; [exact H | |].
  - apply IH. now apply setKey_keeps.
  - apply IH. destruct (args g); [now apply fold_setKey_keeps | exact H].
Qed.

(** The non-null assertion [map.get(config.key)!] is safe: the key of a
    keyed [Field] of the config is in the lookup built from that config. *)
Lemma keyed_field_in_lookup (fields : FieldsConfig) (i : nat) (f : Field) (k : string) :
  fields !! i = Some (AField f) -> present (key f) = Some k ->
  is_Some (buildKeyMap fields None !! k).
Proof.
  unfold buildKeyMap. generalize (default (∅ : KeyMap) None).
  revert i. induction fields as [| c rest IH]; intros i m Hi Hk; [discriminate |].
  destruct i as [| i]; simpl in Hi.
  - injection Hi as ->. simpl. apply buildKeyMap_from_keeps.
    unfold setKey. rewrite Hk. rewrite lookup_insert_eq. eauto.
  - destruct c as [f0 | g]; simpl; eapply IH; eauto.
Qed.

(** Each iteration runs under the entry [active] names, and hands it on. *)
Lemma loop_active (kmap : KeyMap) (fields : FieldsConfig) (index : nat)
  (p : Params) (arg : JsVal) (rest : list JsVal) :
  loop kmap fields index (carried fields index) p (arg :: rest)
  = match active fields index with
    | Some c =>
        let* p' := step kmap c p arg in
        loop kmap fields (S index) (carried fields (S index)) p' rest
    | None => loop kmap fields (S index) (carried fields (S index)) p rest
    end.
Proof.
  simpl. destruct index as [| before]; simpl; destruct (fields !! _); reflexivity.
Qed.

(** Carry-forward: a position within the config has its own entry; every
    later position has the last entry of the config. *)
Lemma active_within (fields : FieldsConfig) (i : nat) (c : FieldOrFields) :
  fields !! i = Some c -> active fields i = Some c.
Proof. intros H. destruct i; simpl; now rewrite H. Qed.

Lemma active_beyond (fields : FieldsConfig) (i : nat) :
  List.length fields <= i -> active fields i = last fields.
Proof.
  induction i as [| i IH]; intros H.
  - destruct fields; [reflexivity | simpl in H; lia].
  - simpl. destruct (fields !! S i) as [c |] eqn:E.
    + apply lookup_lt_Some in E. lia.
    + destruct (decide (List.length fields <= i)) as [Hle | Hgt]; [now apply IH |].
      assert (Hlen : List.length fields = S i) by lia.
      destruct (fields !! i) as [c |] eqn:Ei.
      * rewrite (active_within _ _ _ Ei). symmetry.
        rewrite last_lookup, Hlen. exact Ei.
      * apply lookup_ge_None in Ei. lia.
Qed.

(** ** Stripping *)

(** What [stripEmptySlots] leaves: no slot holds an object without own
    enumerable keys; of a slot that held an ordinary object only a
    non-empty one is left; and a value is removed exactly when it is an
    object without own enumerable keys, of whatever class. *)
Lemma stripEmptySlots_result (q : Params) (s : Slot) :
  (forall v, get_slot (stripEmptySlots q) s = Some v -> forall cls, v <> VObj cls []) /\
  (forall props, get_slot q s = Some (VObj Plain props) ->
     get_slot (stripEmptySlots q) s = None \/
     exists k v rest, get_slot (stripEmptySlots q) s = Some (VObj Plain ((k, v) :: rest))) /\
  (forall v, get_slot q s = Some v ->
     (get_slot (stripEmptySlots q) s = None <-> exists cls, v = VObj cls []) /\
     ((forall cls, v <> VObj cls []) -> get_slot (stripEmptySlots q) s = Some v)).
Proof.
  rewrite stripEmptySlots_slot. split; [| split].
  - intros v Hv cls ->.
    destruct (get_slot q s) as [w |]; simpl in Hv; [| discriminate].
    destruct (is_empty_object w) eqn:E; [discriminate |].
    injection Hv as ->. discriminate E.
  - intros props ->. simpl. destruct props as [| [k v] rest]; [now left | right; eauto].
  - intros v ->. simpl. destruct (is_empty_object v) eqn:E.
    + apply is_empty_object_spec in E as [cls ->]. split.
      * split; eauto.
      * intros Hne. now destruct (Hne cls).
    + split; [| reflexivity]. split; [discriminate |].
      intros [cls ->]. discriminate E.
Qed.

(** C5. The code departs from the claim on a body that is a host object: a
    [Blob], a [Date], a [Map], a [FormData] keeps its content in internal
    slots and has no own enumerable key, so the test of [stripEmptySlots]
    takes it for an empty object.  On
    [buildClientParams([new Blob(['x'])], [{ in: 'body' }])], and for an
    object of any other such class, the loop ends with that object as the
    body, the object is not [{}], and the result is [{}]: the body is
    removed although it is not an empty object. *)
Theorem host_object_body_is_dropped (ctor : string) :
  fill [VObj (Host ctor) []] [AField (mkField Body None None)]
  = Normal (mkParams (Some (VObj (Host ctor) [])) (Some empty_object) (Some empty_object)
              (Some empty_object)) /\
  buildClientParams [VObj (Host ctor) []] [AField (mkField Body None None)]
  = Normal (mkParams None None None None) /\
  VObj (Host ctor) [] <> empty_object /\
  fill [VObj (Host "Blob") []] [AField (mkField Body None None)]
  = Normal (mkParams (Some (VObj (Host "Blob") [])) (Some empty_object) (Some empty_object)
              (Some empty_object)) /\
  buildClientParams [VObj (Host "Blob") []] [AField (mkField Body None None)]
  = Normal (mkParams None None None None).
Proof.
  split; [reflexivity |]. split; [reflexivity |]. split; [discriminate |].
  split; reflexivity.
Qed.

(** ** The examples of the specification *)

(** C2 (amended). On [[{id:'1'}, 'hello']] with
    [[{in:'path',key:'id'},{in:'body'}]] the result is
    [{body:'hello', path:{id:{id:'1'}}}]: a [Field] entry stores its whole
    argument under the key, it does not look inside it.  [headers] and
    [query] are absent. *)
Theorem buildClientParams_example :
  buildClientParams
    [VObj Plain [("id", VStr "1")]; VStr "hello"]
    [AField (mkField Path (Some "id") None); AField (mkField Body None None)]
  = Normal (mkParams (Some (VStr "hello")) None
              (Some (VObj Plain [("id", VObj Plain [("id", VStr "1")])])) None).
Proof. reflexivity. Qed.

(** C2, as stated, fails: the result is not [{path:{id:'1'}, body:'hello'}]. *)
Lemma buildClientParams_example_not_as_stated :
  buildClientParams
    [VObj Plain [("id", VStr "1")]; VStr "hello"]
    [AField (mkField Path (Some "id") None); AField (mkField Body None None)]
  <> Normal (mkParams (Some (VStr "hello")) None
               (Some (VObj Plain [("id", VStr "1")])) None).
Proof. intros H. vm_compute in H. discriminate H. Qed.


(** ** Carry-forward *)

(** The entry in force at a position is the entry of that position, and
    past the end of the config the last entry. *)
Lemma active_min (fields : FieldsConfig) (i : nat) :
  active fields i = fields !! Nat.min i (List.length fields - 1).
Proof.
  destruct (decide (i < List.length fields)) as [Hlt | Hge].
  - replace (Nat.min i (List.length fields - 1)) with i by lia.
    destruct (lookup_lt_is_Some_2 fields i Hlt) as [c Hc].
    rewrite (active_within _ _ _ Hc). symmetry. exact Hc.
  - rewrite active_beyond by lia.
    replace (Nat.min i (List.length fields - 1)) with (pred (List.length fields)) by lia.
    apply last_lookup.
Qed.

(** The loop, as a fold over the positions and their arguments. *)
Lemma loop_fold (kmap : KeyMap) (fields : FieldsConfig) (rest : list JsVal) :
  forall index p,
    loop kmap fields index (carried fields index) p rest
    = foldC (fun params '(i, arg) =>
               match fields !! Nat.min i (List.length fields - 1) with
               | Some config => step kmap config params arg
               | None => Normal params
               end)
        (combine (seq index (List.length rest)) rest) p.
Proof.
  induction rest as [| arg rest IH]; intros index p; [reflexivity |].
  rewrite loop_active.
  change (combine (seq index (List.length (arg :: rest))) (arg :: rest))
    with ((index, arg) :: combine (seq (S index) (List.length rest)) rest).
  cbn [foldC]. rewrite <- active_min.
  destruct (active fields index) as [c |] eqn:Hc.
  - destruct (step kmap c p arg); cbn [cbind]; [apply IH | reflexivity ..].
  - cbn [cbind]. apply IH.
Qed.

(** C7. [buildClientParams] carries the last-seen config entry forward.
    For every config and every argument list, the argument at position [i]
    is processed under [fields[i]] when the config has an entry there, and
    under the last entry of the config at every later position (and is
    skipped when the config is empty): the loop is the fold of [step] over
    the arguments, each under the entry at [min i (fields.length - 1)].

    So with [fields = [{in:'query', key:'a'}]] each of ['x'], ['y'], ['z']
    is stored as [query.a], the later one overwriting the earlier one; and
    with a second entry [{in:'path', key:'p'}, {in:'query', key:'a'}] the
    arguments from position 1 on go to [query.a], the entry seen last, not
    to [path.p], the entry of position 0. *)
Theorem carry_forward :
  (forall (args : list JsVal) (fields : FieldsConfig),
     fill args fields
     = foldC (fun params '(i, arg) =>
                match fields !! Nat.min i (List.length fields - 1) with
                | Some config => step (buildKeyMap fields None) config params arg
                | None => Normal params
                end)
         (combine (seq 0 (List.length args)) args)
         (mkParams (Some empty_object) (Some empty_object) (Some empty_object)
            (Some empty_object))) /\
  (forall (fields : FieldsConfig) (i : nat),
     List.length fields <= i ->
     fields !! Nat.min i (List.length fields - 1) = last fields) /\
  buildClientParams [VStr "x"] [AField (mkField Query (Some "a") None)]
  = Normal (mkParams None None None (Some (VObj Plain [("a", VStr "x")]))) /\
  buildClientParams [VStr "x"; VStr "y"] [AField (mkField Query (Some "a") None)]
  = Normal (mkParams None None None (Some (VObj Plain [("a", VStr "y")]))) /\
  buildClientParams [VStr "x"; VStr "y"; VStr "z"] [AField (mkField Query (Some "a") None)]
  = Normal (mkParams None None None (Some (VObj Plain [("a", VStr "z")]))) /\
  buildClientParams [VStr "w"; VStr "x"; VStr "y"; VStr "z"]
    [AField (mkField Path (Some "p") None); AField (mkField Query (Some "a") None)]
  = Normal (mkParams None None (Some (VObj Plain [("p", VStr "w")]))
              (Some (VObj Plain [("a", VStr "z")]))).
Proof.
  split; [| split; [| repeat split; reflexivity]].
  - intros args fields. unfold fill.
    change (@None FieldOrFields) with (carried fields 0). apply loop_fold.
  - intros fields i Hi. rewrite <- active_min. now apply active_beyond.
Qed.

Lemma carry_forward_witness :
  List.length [AField (mkField Path (Some "p") None); AField (mkField Query (Some "a") None)]
  <= 3 /\
  [AField (mkField Path (Some "p") None); AField (mkField Query (Some "a") None)]
    !! Nat.min 3 (List.length [AField (mkField Path (Some "p") None);
                               AField (mkField Query (Some "a") None)] - 1)
  = last [AField (mkField Path (Some "p") None); AField (mkField Query (Some "a") None)].
Proof.
  split; [simpl; lia |].
  refine (proj1 (proj2 carry_forward) _ 3 _). simpl. lia.
Defined.


(** ** Routing of the keys of an object argument *)

Lemma find_none_iff {A} (f : A -> bool) (l : list A) :
  List.find f l = None <-> forall x, In x l -> f x = false.
Proof.
  split; [apply find_none |].
  induction l as [| x rest IH]; simpl; intros H; [reflexivity |].
  rewrite (H x (or_introl eq_refl)). apply IH. intros y Hy. apply H. now right.
Qed.







End ParamsTheory.

(** * Properties of the request executor *)
Module ClientTheory.
Import Client.

Section Executor.

Variables (Request Headers HeadersInit Security Rest : Type).
Variable mergeHeaders : option HeadersInit -> option HeadersInit -> Headers.
Variable headers_delete : string -> Headers -> Headers.
Variable spread_rest : Rest -> Rest -> Rest.
Variable setAuthParams : Opts Headers Security Rest -> Security
                         -> Completion (Opts Headers Security Rest).
Variable buildUrl : Opts Headers Security Rest -> Completion string.
Variable getParseAs : option string -> option ParseAs.
Variable new_Request : string -> Opts Headers Security Rest -> Completion Request.
Variable globalThis_fetch : option (Request -> Completion Response).
Variable JSON_parse : string -> option JsVal.

Abbreviation send' :=
  (send Request Headers HeadersInit Security Rest mergeHeaders headers_delete
     spread_rest setAuthParams buildUrl new_Request globalThis_fetch).
Abbreviation settle' :=
  (settle Request Headers Security Rest getParseAs JSON_parse).
Abbreviation request' :=
  (request Request Headers HeadersInit Security Rest mergeHeaders headers_delete
     spread_rest setAuthParams buildUrl getParseAs new_Request globalThis_fetch
     JSON_parse).

Implicit Types (opts : Opts Headers Security Rest)
  (hooks : Hooks Request Headers Security Rest)
  (interceptors : Interceptors Request Headers Security Rest)
  (req : Request) (resp : Response).

Lemma request_Normal _config interceptors options (r : Result Request) :
  request' _config interceptors options = Normal r ->
  exists opts hooks req resp,
    send' _config interceptors options = Normal (opts, hooks, req, resp) /\
    settle' interceptors opts hooks req resp = Normal r.
Proof.
  unfold request. intros H.
  apply cbind_Normal in H as ([[[opts hooks] req] resp] & Hs & H).
  exists opts, hooks, req, resp. auto.
Qed.

(** Without response interceptors the response that reaches the result
    stage is the one the transport resolved to. *)
Lemma send_transport_response _config interceptors options opts hooks req resp :
  send' _config interceptors options = Normal (opts, hooks, req, resp) ->
  response_fns interceptors = [] ->
  exists _fetch, fetch hooks = Some _fetch /\ _fetch req = Normal resp.
Proof.
  unfold send. intros H Hfns. rewrite Hfns in H.
  repeat match type of H with
         | cbind _ _ = Normal _ => apply cbind_Normal in H as (? & ? & H)
         end.
  simpl in H. injection H as <- <- <- <-.
  match goal with
  | Hf : match fetch ?h with _ => _ end = Normal _ |- _ =>
      destruct (fetch h) as [_fetch |]; [| discriminate Hf];
      exists _fetch; split; [reflexivity |]
  end.
  match goal with
  | Hr : foldC _ [] _ = Normal _ |- _ => simpl in Hr; injection Hr as <-
  end.
  assumption.
Qed.

Lemma or_else_truthy (a b : JsVal) : truthy b = true -> truthy (or_else a b) = true.
Proof. unfold or_else. destruct (truthy a) eqn:E; auto. Qed.

(** What [settle] returns, by response style and by branch. *)
Lemma settle_Normal interceptors opts hooks req resp (r : Result Request) :
  settle' interceptors opts hooks req resp = Normal r ->
  if ok resp
  then exists d, r = with_data opts req resp d /\
                 ClientStages.returned_data getParseAs opts hooks resp d
  else throwOnError opts = false /\
       exists err, truthy err = true /\ r = with_error opts req resp err /\
                   ClientStages.returned_error JSON_parse interceptors opts req resp err.
Proof.
  unfold settle, ClientStages.returned_data, ClientStages.returned_error.
  destruct (ok resp).
  - destruct (no_content resp); [intros [= <-]; eauto |].
    destruct (resolve_parseAs _ _ _ getParseAs opts resp);
      try (intros [= <-]; eauto; fail);
      intros H;
      apply cbind_Normal in H as (d & Hd & H);
      apply cbind_Normal in H as (d' & Hd' & [= <-]);
      try (injection Hd' as <-; exists d; split; [reflexivity | exact Hd]).
    apply cbind_Normal in Hd' as ([] & Hv & Ht).
    exists d'. split; [reflexivity |]. exists d. simpl in Hd.
    split; [exact Hd |]. split; [exact Hv |].
    destruct (responseTransformer hooks); [exact Ht | now injection Ht as <-].
  - intros H. apply cbind_Normal in H as (t & Ht & H).
    apply cbind_Normal in H as (fe & Hfe & H).
    destruct (throwOnError opts); [discriminate |].
    injection H as <-. split; [reflexivity |].
    exists (or_else fe empty_object).
    split; [now apply or_else_truthy |]. split; [reflexivity |].
    exists t, fe. auto.
Qed.

(** C1 (amended). A call of [request] that returns, returns the value of
    exactly one channel.  In envelope style (any [responseStyle] but
    ['data']) the object has the key [data] and no key [error] after a 2xx
    response, and the key [error] and no key [data] after any other
    response.  The error is always truthy: it is what the error
    interceptors made of the parsed body, or [{}].  The data is whatever
    the success path produced ([{}] without content, [response.body] in
    stream mode, the body as read, and in json mode as validated and
    transformed), which can be [null] or [undefined].  In bare style the
    call returns that data after a 2xx response and [undefined] after any
    other.  And a call that returns after a non-2xx response was not
    configured to throw: with [throwOnError] the error is thrown and
    nothing is returned. *)
Theorem request_returns_data_or_error _config interceptors options (r : Result Request) :
  request' _config interceptors options = Normal r ->
  exists opts hooks req resp,
    send' _config interceptors options = Normal (opts, hooks, req, resp) /\
    (ok resp = false -> throwOnError opts = false) /\
    match responseStyle opts with
    | Some StyleData =>
        exists v, r = Bare v /\
          if ok resp
          then ClientStages.returned_data getParseAs opts hooks resp v
          else v = VUndefined
    | _ =>
        exists e, r = Enveloped e /\ request_of e = req /\ response_of e = resp /\
          if ok resp
          then error e = None /\
               exists d, data e = Some d /\
                         ClientStages.returned_data getParseAs opts hooks resp d
          else data e = None /\
               exists err, error e = Some err /\ truthy err = true /\
                           ClientStages.returned_error JSON_parse interceptors opts req resp err
    end.
Proof.
  intros H. apply request_Normal in H as (opts & hooks & req & resp & Hs & H).
  exists opts, hooks, req, resp. split; [exact Hs |].
  apply settle_Normal in H. unfold with_data, with_error in H.
  destruct (ok resp).
  - destruct H as (d & -> & Hd). split; [discriminate |].
    destruct (responseStyle opts) as [[|] |].
    + exists d. split; [reflexivity | exact Hd].
    + eexists. split; [reflexivity |]. split; [reflexivity |]. split; [reflexivity |].
      split; [reflexivity |]. exists d. split; [reflexivity | exact Hd].
    + eexists. split; [reflexivity |]. split; [reflexivity |]. split; [reflexivity |].
      split; [reflexivity |]. exists d. split; [reflexivity | exact Hd].
  - destruct H as (Ht & err & Herr & -> & He). split; [auto |].
    destruct (responseStyle opts) as [[|] |].
    + exists VUndefined. split; reflexivity.
    + eexists. split; [reflexivity |]. split; [reflexivity |]. split; [reflexivity |].
      split; [reflexivity |]. exists err. split; [reflexivity |]. split; [exact Herr | exact He].
    + eexists. split; [reflexivity |]. split; [reflexivity |]. split; [reflexivity |].
      split; [reflexivity |]. exists err. split; [reflexivity |]. split; [exact Herr | exact He].
Qed.

(** C4. When the response that reaches the result stage (the transport's
    response, as the response interceptors hand it on; the transport's own
    when there are none) is a 2xx one with status 204 or with a
    [Content-Length] header equal to ['0'], the call returns [{}] in bare
    style and [{ data: {}, request, response }] in envelope style, whatever
    [parseAs] is and whatever the body readers, the response validator and
    the response transformer would do: none of them is consulted. *)
Theorem no_content_returns_empty_object _config interceptors options opts hooks req resp :
  send' _config interceptors options = Normal (opts, hooks, req, resp) ->
  ok resp = true ->
  status resp = 204%Z \/ headers_get resp "Content-Length" = Some "0" ->
  request' _config interceptors options
  = Normal (match responseStyle opts with
            | Some StyleData => Bare empty_object
            | _ => Enveloped (mkEnvelope (Some empty_object) None req resp)
            end) /\
  (response_fns interceptors = [] ->
   exists _fetch, fetch hooks = Some _fetch /\ _fetch req = Normal resp).
Proof.
  intros Hs Hok Hnc. split; [| now apply send_transport_response with (1 := Hs)].
  unfold request. rewrite Hs. simpl. unfold settle.
  rewrite Hok. replace (no_content resp) with true; [reflexivity |].
  unfold no_content. destruct Hnc as [-> | ->]; [reflexivity |].
  simpl. now rewrite orb_true_r.
Qed.

(** C3 (amended). After a non-2xx response (the transport's own when no
    response interceptor is registered) whose body text parses as JSON to
    [j], and with no error interceptor registered, the error value,
    thrown under [throwOnError] and otherwise stored in the [error] field of
    the envelope, is [(j ?? text) || {}]: it is [j] when [j] is truthy; it
    is the raw text when [j] is [null]; it is [{}] when [j] is [false], [0]
    or the empty string. *)
Theorem error_value_of_json_body _config interceptors options opts hooks req resp
  (textError : string) (j : JsVal) :
  send' _config interceptors options = Normal (opts, hooks, req, resp) ->
  ok resp = false ->
  text resp = Normal textError ->
  JSON_parse textError = Some j ->
  error_fns interceptors = [] ->
  request' _config interceptors options
  = (if throwOnError opts
     then Throw (final_error j textError)
     else Normal (with_error opts req resp (final_error j textError))) /\
  (truthy j = true -> final_error j textError = j) /\
  (nullish j = true -> textError <> "" -> final_error j textError = VStr textError) /\
  (nullish j = false -> truthy j = false -> final_error j textError = empty_object) /\
  (response_fns interceptors = [] ->
   exists _fetch, fetch hooks = Some _fetch /\ _fetch req = Normal resp).
Proof.
  intros Hs Hok Ht Hj Hfns.
  split; [| split; [| split; [| split;
    [| now apply send_transport_response with (1 := Hs)]]]].
  - unfold request. rewrite Hs. simpl. unfold settle, run_error_fns.
    rewrite Hok, Ht, Hfns. simpl. rewrite Hj. reflexivity.
  - intros Htr. unfold final_error, coalesce, or_else.
    destruct j; simpl in *; try discriminate; now rewrite ?Htr.
  - intros Hn Hne. unfold final_error, coalesce, or_else. rewrite Hn. simpl.
    destruct (String.eqb textError "") eqn:E; [| reflexivity].
    apply String.eqb_eq in E. contradiction.
  - intros Hn Htr. unfold final_error, coalesce, or_else. rewrite Hn, Htr. reflexivity.
Qed.

End Executor.

(** C3, as stated, fails: the body text [null] is valid JSON and parses to
    [null], and the error value is the raw text ["null"], not [null]; the
    body text [false] parses to [false], and the error value is [{}]. *)
Lemma error_value_of_null_body_is_text :
  JSON_parse_literal "null" = Some VNull /\
  request_on (options_for None false None (plain_response 500 None "null"))
  = Normal (Enveloped (mkEnvelope None (Some (VStr "null")) "/"
                         (plain_response 500 None "null"))) /\
  request_on (options_for None true None (plain_response 500 None "null"))
  = Throw (VStr "null") /\
  VStr "null" <> VNull /\
  JSON_parse_literal "false" = Some (VBool false) /\
  request_on (options_for None true None (plain_response 500 None "false"))
  = Throw empty_object /\
  empty_object <> VBool false.
Proof. repeat split; try reflexivity; discriminate. Qed.


(** C1, as stated, fails: a 200 response whose JSON body is [null] gives
    the envelope [{ data: null, request, response }]; it has no [error],
    and its [data] is [null], so neither field holds a value.  The same
    happens with [undefined] when a response transformer returns it. *)
Lemma neither_data_nor_error_populated :
  (exists e,
     request_on (options_for None false None (ClientStages.json_response VNull "null"))
     = Normal (Enveloped e) /\
     data e = Some VNull /\ error e = None /\
     ~ (exists v, (data e = Some v \/ error e = Some v) /\ nullish v = false)) /\
  (exists e,
     request_on
       (mkConfig Missing Missing Missing Missing Missing Missing "/"
          (Has (Some (fun _ : string =>
                        Normal (ClientStages.json_response (VNum 1) "1"))))
          Missing Missing Missing
          (Has (Some (fun _ : JsVal => Normal VUndefined))))
     = Normal (Enveloped e) /\
     data e = Some VUndefined /\ error e = None /\
     ~ (exists v, (data e = Some v \/ error e = Some v) /\ nullish v = false)).
Proof.
  split; eexists; (split; [reflexivity |]); (split; [reflexivity |]);
    (split; [reflexivity |]); intros (v & [[= <-] | [=]] & Hv); discriminate Hv.
Qed.

Lemma request_returns_data_or_error_witness :
  request_on (options_for None false None (ClientStages.json_response VNull "null"))
  = Normal (Enveloped (mkEnvelope (Some VNull) None "/"
                         (ClientStages.json_response VNull "null"))) /\
  exists opts hooks req resp,
    send_on (options_for None false None (ClientStages.json_response VNull "null"))
    = Normal (opts, hooks, req, resp) /\
    (ok resp = false -> throwOnError opts = false) /\
    match responseStyle opts with
    | Some StyleData =>
        exists v,
          Enveloped (mkEnvelope (Some VNull) None "/"
                       (ClientStages.json_response VNull "null")) = Bare v /\
          if ok resp
          then ClientStages.returned_data (fun _ => None) opts hooks resp v
          else v = VUndefined
    | _ =>
        exists e,
          Enveloped (mkEnvelope (Some VNull) None "/"
                       (ClientStages.json_response VNull "null")) = Enveloped e /\
          request_of e = req /\ response_of e = resp /\
          if ok resp
          then error e = None /\
               exists d, data e = Some d /\
                         ClientStages.returned_data (fun _ => None) opts hooks resp d
          else data e = None /\
               exists err, error e = Some err /\ truthy err = true /\
                           ClientStages.returned_error JSON_parse_literal
                             (mkInterceptors [] [] []) opts req resp err
    end.
Proof.
  split; [reflexivity |].
  apply (request_returns_data_or_error string unit unit unit string
           (fun _ _ => tt) (fun _ h => h) (fun _ b => b)
           (fun opts _ => Normal opts) (fun opts => Normal (rest opts))
           (fun _ => None) (fun url _ => Normal url) None JSON_parse_literal
           (mkConfig Missing Missing Missing Missing Missing Missing ""
              Missing Missing Missing Missing Missing)
           (mkInterceptors [] [] [])
           (options_for None false None (ClientStages.json_response VNull "null"))).
  reflexivity.
Defined.

Lemma no_content_returns_empty_object_witness :
  send_on (options_for (Some StyleData) false (Some (Fixed Text))
             (plain_response 204 None "unread"))
  = Normal (opts_for (Some StyleData) false (Some (Fixed Text)),
            hooks_for (plain_response 204 None "unread"), "/",
            plain_response 204 None "unread") /\
  ok (plain_response 204 None "unread") = true /\
  status (plain_response 204 None "unread") = 204%Z /\
  request_on (options_for (Some StyleData) false (Some (Fixed Text))
                (plain_response 204 None "unread"))
  = Normal (Bare empty_object).
Proof.
  split; [reflexivity |]. split; [reflexivity |]. split; [reflexivity |].
  apply (no_content_returns_empty_object string unit unit unit string
           (fun _ _ => tt) (fun _ h => h) (fun _ b => b)
           (fun opts _ => Normal opts) (fun opts => Normal (rest opts))
           (fun _ => None) (fun url _ => Normal url) None JSON_parse_literal
           (mkConfig Missing Missing Missing Missing Missing Missing ""
              Missing Missing Missing Missing Missing)
           (mkInterceptors [] [] [])
           (options_for (Some StyleData) false (Some (Fixed Text))
              (plain_response 204 None "unread"))
           (opts_for (Some StyleData) false (Some (Fixed Text)))
           (hooks_for (plain_response 204 None "unread")) "/"
           (plain_response 204 None "unread"));
    [reflexivity | reflexivity | left; reflexivity].
Defined.

Lemma error_value_of_json_body_witness :
  send_on (options_for None false None (plain_response 404 None "{}"))
  = Normal (opts_for None false None, hooks_for (plain_response 404 None "{}"), "/",
            plain_response 404 None "{}") /\
  ok (plain_response 404 None "{}") = false /\
  JSON_parse_literal "{}" = Some empty_object /\
  request_on (options_for None false None (plain_response 404 None "{}"))
  = Normal (Enveloped (mkEnvelope None (Some empty_object) "/"
                         (plain_response 404 None "{}"))).
Proof.
  split; [reflexivity |]. split; [reflexivity |]. split; [reflexivity |].
  apply (error_value_of_json_body string unit unit unit string
           (fun _ _ => tt) (fun _ h => h) (fun _ b => b)
           (fun opts _ => Normal opts) (fun opts => Normal (rest opts))
           (fun _ => None) (fun url _ => Normal url) None JSON_parse_literal
           (mkConfig Missing Missing Missing Missing Missing Missing ""
              Missing Missing Missing Missing Missing)
           (mkInterceptors [] [] [])
           (options_for None false None (plain_response 404 None "{}"))
           (opts_for None false None)
           (hooks_for (plain_response 404 None "{}")) "/"
           (plain_response 404 None "{}") "{}" empty_object);
    reflexivity.
Defined.

End ClientTheory.

(** * Properties of the platform services *)
Module ServicesTheory.
Import Services.

Lemma find_id_none (wanted : Z) (listed : list ActiveNotification) :
  (forall n, In n listed -> id n <> wanted) ->
  List.find (fun notification => (id notification =? wanted)%Z) listed = None.
Proof.
  intros H. induction listed as [| n rest IH]; simpl; [reflexivity |].
  destruct (Z.eqb_spec (id n) wanted) as [E | _].
  - destruct (H n (or_introl eq_refl) E).
  - apply IH. intros m Hm. apply H. now right.
Qed.

(** C9. Off macOS each of the four permission operations resolves to
    [Ok(true)], and the web FFmpeg service resolves [checkInstalled] to
    [Ok(false)] and [compressAudioBlob] to an [Err] holding an error tagged
    [FfmpegServiceError] with a fixed message (its context repeats the
    compression options, its cause is [undefined]).  Every one of them
    resolves, none rejects, and none makes a platform call: on any platform,
    in any state, the list of calls made is empty and the state is left as
    it was. *)
Theorem unsupported_platform_returns_fixed_value
  (World : Type) (platform : forall X, ApiCall X -> World -> (X + JsVal) * World)
  (w : World) (extractErrorMessage : JsVal -> string)
  (blob_ : JsVal) (compressionOptions : string) :
  let permissions := createPermissionsService false extractErrorMessage in
  run World platform (check (accessibility permissions)) w = ([], Normal (Ok true), w) /\
  run World platform (request (accessibility permissions)) w
  = ([], Normal (Ok (VBool true)), w) /\
  run World platform (check (microphone permissions)) w = ([], Normal (Ok true), w) /\
  run World platform (request (microphone permissions)) w
  = ([], Normal (Ok (VBool true)), w) /\
  run World platform (checkInstalled createFfmpegServiceWeb) w
  = ([], Normal (Ok false), w) /\
  run World platform (compressAudioBlob createFfmpegServiceWeb blob_ compressionOptions) w
  = ([],
     Normal
       (Err (mkTaggedError "FfmpegServiceError"
               "Audio compression is not available in the web version. FFmpeg is only supported in the desktop application."
               (VObj Plain [("compressionOptions", VStr compressionOptions)])
               VUndefined)),
     w).
Proof. repeat split. Qed.

(** C10. When the platform lists the active notifications without
    failing and none of them has the hash of the given id as its numeric
    id, [clear] resolves to [Ok(undefined)], and the listing is the only
    platform call it makes: nothing is removed. *)
Theorem clear_of_inactive_notification_is_ok
  (World : Type) (platform : forall X, ApiCall X -> World -> (X + JsVal) * World)
  (hashNanoidToNumber : string -> Z) (idStringified : string)
  (w w' : World) (listed : list ActiveNotification) :
  platform _ active w = (inl listed, w') ->
  (forall n, In n listed -> id n <> hashNanoidToNumber idStringified) ->
  run World platform (clear hashNanoidToNumber idStringified) w
  = ([called active], Normal (Ok tt), w').
Proof.
  intros Hlist Hnone. unfold clear, removeNotificationById. simpl.
  rewrite Hlist. simpl. now rewrite (find_id_none _ _ Hnone).
Qed.

Lemma clear_of_inactive_notification_is_ok_witness :
  listing_platform [mkActiveNotification 7 VNull] _ active tt
  = (inl [mkActiveNotification 7 VNull], tt) /\
  (forall n, In n [mkActiveNotification 7 VNull] -> id n <> 3%Z) /\
  run unit (listing_platform [mkActiveNotification 7 VNull])
    (clear (fun _ => 3%Z) "V1StGXR8_Z5jdHi6B-myT") tt
  = ([called active], Normal (Ok tt), tt).
Proof.
  assert (H : forall n, In n [mkActiveNotification 7 VNull] -> id n <> 3%Z).
  { intros n [<- | []]. simpl. lia. }
  split; [reflexivity |]. split; [exact H |].
  apply (clear_of_inactive_notification_is_ok unit
           (listing_platform [mkActiveNotification 7 VNull])
           (fun _ => 3%Z) "V1StGXR8_Z5jdHi6B-myT" tt tt
           [mkActiveNotification 7 VNull]);
    [reflexivity | exact H].
Defined.

End ServicesTheory.

(** * Further properties of the parameter mapper *)
Module ParamsMoreTheory.
Import Params ParamsMore.

(** ** Property writes *)

Lemma lookup_upsert_eq (name : string) (value : JsVal) (props : list (string * JsVal)) :
  lookup_prop name (upsert name value props) = Some value.
Proof.
  induction props as [| [k v] rest IH]; simpl.
  - now rewrite String.eqb_refl.
  - destruct (String.eqb k name) eqn:E; simpl; rewrite E; [reflexivity | exact IH].
Qed.

Lemma lookup_upsert_ne (name n : string) (value : JsVal) (props : list (string * JsVal)) :
  n <> name -> lookup_prop n (upsert name value props) = lookup_prop n props.
Proof.
  intros Hne. induction props as [| [k v] rest IH]; simpl.
  - destruct (String.eqb_spec name n) as [-> | _]; [contradiction | reflexivity].
  - destruct (String.eqb_spec k name) as [-> | Hk]; simpl.
    + destruct (String.eqb_spec name n) as [-> | _]; [contradiction | reflexivity].
    + destruct (String.eqb k n); [reflexivity | exact IH].
Qed.

Lemma set_property_read (target : JsVal) (name : string) (value t' : JsVal) :
  set_property target name value = Normal t' -> name <> "__proto__" ->
  read_prop t' name = Some value /\
  forall n, n <> name -> read_prop t' n = read_prop target n.
Proof.
  intros H Hne. apply String.eqb_neq in Hne. unfold set_property in H.
  destruct target as [| | b | n0 | s | cls props]; rewrite ?Hne in H; try discriminate.
  destruct cls; [| destruct (String.eqb name "length"); [discriminate |] |];
    injection H as <-; unfold read_prop; simpl;
    (split; [apply lookup_upsert_eq | intros n Hn; now apply lookup_upsert_ne]).
Qed.

(** A property write that returns can be read back: the slot then
    holds the value under the name, every other name of the slot reads as
    before, and the other slots are untouched. *)
Theorem assign_then_read (p p' : Params) (slot : Slot) (name : string) (value : JsVal) :
  assign p slot name value = Normal p' ->
  name <> "__proto__" ->
  (exists t', get_slot p' slot = Some t' /\ read_prop t' name = Some value) /\
  (forall n t t', n <> name -> get_slot p slot = Some t -> get_slot p' slot = Some t' ->
                  read_prop t' n = read_prop t n) /\
  (forall s, s <> slot -> get_slot p' s = get_slot p s).
Proof.
  unfold assign. destruct (get_slot p slot) as [target |] eqn:Ht; [| discriminate].
  intros H Hne. apply cbind_Normal in H as (t' & Hset & [= <-]).
  destruct (set_property_read _ _ _ _ Hset Hne) as [Hsame Hother].
  split; [| split].
  - exists t'. split; [apply ParamsTheory.get_put_same | exact Hsame].
  - intros n t t'' Hn [= <-] Ht''. rewrite ParamsTheory.get_put_same in Ht''.
    injection Ht'' as <-. now apply Hother.
  - intros s Hs. apply ParamsTheory.get_put_other. congruence.
Qed.


Lemma assign_then_read_witness :
  assign (mkParams (Some empty_object) (Some empty_object) (Some empty_object)
            (Some (VObj Plain [("a", VNum 1)]))) Query "b" (VNum 2)
  = Normal (mkParams (Some empty_object) (Some empty_object) (Some empty_object)
              (Some (VObj Plain [("a", VNum 1); ("b", VNum 2)]))) /\
  exists t',
    get_slot (mkParams (Some empty_object) (Some empty_object) (Some empty_object)
                (Some (VObj Plain [("a", VNum 1); ("b", VNum 2)]))) Query = Some t' /\
    read_prop t' "b" = Some (VNum 2).
Proof.
  split; [reflexivity |].
  apply (assign_then_read
           (mkParams (Some empty_object) (Some empty_object) (Some empty_object)
              (Some (VObj Plain [("a", VNum 1)])))
           (mkParams (Some empty_object) (Some empty_object) (Some empty_object)
              (Some (VObj Plain [("a", VNum 1); ("b", VNum 2)])))
           Query "b" (VNum 2)); [reflexivity | discriminate].
Defined.

(** ** The lookup *)

Lemma setKey_lookup (m : KeyMap) (f : Field) (k : string) :
  setKey m f !! k
  = if decide (present (key f) = Some k) then Some (in_ f, map f) else m !! k.
Proof.
  unfold setKey. destruct (present (key f)) as [k0 |] eqn:E.
  - destruct (decide (Some k0 = Some k)) as [[= ->] | Hne].
    + apply lookup_insert_eq.
    + apply lookup_insert_ne. congruence.
  - destruct (decide (None = Some k)); [discriminate | reflexivity].
Qed.

Lemma fold_setKey_sound (fs : list Field) (m : KeyMap) (k : string) (e : Slot * option string) :
  fold_left setKey fs m !! k = Some e ->
  m !! k = Some e \/
  exists f, In f fs /\ present (key f) = Some k /\ e = (in_ f, map f).
Proof.
  revert m. induction fs as [| f fs IH]; simpl; intros m H; [now left |].
  destruct (IH _ H) as [Hm | (f' & Hin & Hk & He)].
  - rewrite setKey_lookup in Hm. destruct (decide (present (key f) = Some k)) as [Hk |].
    + injection Hm as <-. right. exists f. auto.
    + now left.
  - right. exists f'. auto.
Qed.

Lemma buildKeyMap_from_sound (fields : FieldsConfig) (m : KeyMap) (k : string)
  (e : Slot * option string) :
  buildKeyMap_from fields m !! k = Some e ->
  m !! k = Some e \/
  exists f, declared fields f /\ present (key f) = Some k /\ e = (in_ f, map f).
Proof.
  revert m. induction fields as [| [f | g] rest IH]; simpl; intros m H; [now left | |].
  - destruct (IH _ H) as [Hm | (f' & Hd & Hk & He)].
    + rewrite setKey_lookup in Hm. destruct (decide (present (key f) = Some k)) as [Hk |].
      * injection Hm as <-. right. exists f. split; [left; now left | auto].
      * now left.
    + right. exists f'. split; [| auto].
      destruct Hd as [Hin | (g & fs & Hin & Ha & Hf)]; [left; now right |].
      right. exists g, fs. split; [now right | auto].
  - destruct (IH _ H) as [Hm | (f' & Hd & Hk & He)].
    + destruct (args g) as [fs |] eqn:Ha; [| now left].
      destruct (fold_setKey_sound _ _ _ _ Hm) as [? | (f & Hin & Hk & He)]; [now left |].
      right. exists f. split; [| auto]. right. exists g, fs. split; [now left | auto].
    + right. exists f'. split; [| auto].
      destruct Hd as [Hin | (g' & fs & Hin & Ha & Hf)]; [left; now right |].
      right. exists g', fs. split; [now right | auto].
Qed.

Lemma fold_setKey_complete (fs : list Field) (m : KeyMap) (f : Field) (k : string) :
  In f fs -> present (key f) = Some k -> is_Some (fold_left setKey fs m !! k).
Proof.
  revert m. induction fs as [| f0 fs IH]; simpl; intros m Hin Hk; [destruct Hin |].
  destruct Hin as [-> | Hin].
  - apply ParamsTheory.fold_setKey_keeps. rewrite setKey_lookup.
    destruct (decide (present (key f) = Some k)); [eauto | contradiction].
  - now apply IH.
Qed.

Lemma buildKeyMap_from_complete (fields : FieldsConfig) (m : KeyMap) (f : Field) (k : string) :
  declared fields f -> present (key f) = Some k ->
  is_Some (buildKeyMap_from fields m !! k).
Proof.
  revert m. induction fields as [| c rest IH]; intros m Hd Hk.
  - destruct Hd as [[] | (g & fs & Hin & _)]. destruct Hin.
  - assert (Hcase : (c = AField f \/ exists g fs, c = AFields g /\ args g = Some fs /\ In f fs)
                    \/ declared rest f).
    { destruct Hd as [[-> | Hin] | (g & fs & [-> | Hin] & Ha & Hf)].
      - left. now left.
      - right. now left.
      - left. right. eauto.
      - right. right. eauto. }
    destruct Hcase as [[-> | (g & fs & -> & Ha & Hf)] | Hrest].
    + simpl. apply ParamsTheory.buildKeyMap_from_keeps. rewrite setKey_lookup.
      destruct (decide (present (key f) = Some k)); [eauto | contradiction].
    + simpl. rewrite Ha. apply ParamsTheory.buildKeyMap_from_keeps.
      now apply fold_setKey_complete with (f := f).
    + destruct c as [f0 | g]; simpl; now apply IH.
Qed.

(** X1. The lookup holds exactly the declared keys: a key is in the lookup
    built from a config if and only if some [Field] of the config, at top
    level or in the [args] of a group, has it as its non-empty key; and the
    entry found is the slot and rename of such a field. *)
Theorem lookup_holds_declared_keys (fields : FieldsConfig) (k : string) :
  (is_Some (buildKeyMap fields None !! k) <->
   exists f, declared fields f /\ present (key f) = Some k) /\
  (forall e, buildKeyMap fields None !! k = Some e ->
     exists f, declared fields f /\ present (key f) = Some k /\ e = (in_ f, map f)).
Proof.
  assert (Hsound : forall e, buildKeyMap fields None !! k = Some e ->
            exists f, declared fields f /\ present (key f) = Some k /\ e = (in_ f, map f)).
  { intros e He. unfold buildKeyMap in He.
    destruct (buildKeyMap_from_sound _ _ _ _ He) as [Hm | ?]; [| assumption].
    simpl in Hm. rewrite lookup_empty in Hm. discriminate. }
  split; [split |]; [| | exact Hsound].
  - intros [e He]. destruct (Hsound e He) as (f & Hd & Hk & _). eauto.
  - intros (f & Hd & Hk). unfold buildKeyMap. now apply buildKeyMap_from_complete with (f := f).
Qed.

Lemma buildKeyMap_from_app (a b : FieldsConfig) (m : KeyMap) :
  buildKeyMap_from (a ++ b) m = buildKeyMap_from b (buildKeyMap_from a m).
Proof.
  revert m. induction a as [| [f | g] a IH]; simpl; intros m; [reflexivity | apply IH ..].
Qed.

(** When a key is declared more than once the last declaration
    decides: after a config that ends with a keyed [Field], the lookup maps
    the key to the slot and rename of that field, whatever came before. *)
Theorem last_declaration_wins (fields : FieldsConfig) (f : Field) (k : string) :
  present (key f) = Some k ->
  buildKeyMap (fields ++ [AField f]) None !! k = Some (in_ f, map f).
Proof.
  intros Hk. unfold buildKeyMap. rewrite buildKeyMap_from_app. simpl.
  rewrite setKey_lookup. destruct (decide (present (key f) = Some k)); [reflexivity | contradiction].
Qed.

Lemma last_declaration_wins_witness :
  present (key (mkField Query (Some "id") (Some "ident"))) = Some "id" /\
  buildKeyMap ([AField (mkField Path (Some "id") None)]
               ++ [AField (mkField Query (Some "id") (Some "ident"))]) None !! "id"
  = Some (Query, Some "ident").
Proof.
  split; [reflexivity |].
  apply (last_declaration_wins [AField (mkField Path (Some "id") None)]
           (mkField Query (Some "id") (Some "ident")) "id").
  reflexivity.
Defined.


(** ** Whole runs *)

Lemma assign_initial (s : Slot) (name : string) (v : JsVal) :
  name <> "__proto__" ->
  assign (mkParams (Some empty_object) (Some empty_object) (Some empty_object)
            (Some empty_object)) s name v
  = Normal (put_slot (mkParams (Some empty_object) (Some empty_object)
                        (Some empty_object) (Some empty_object))
              s (Some (VObj Plain [(name, v)]))).
Proof.
  intros Hne. apply String.eqb_neq in Hne.
  destruct s; unfold assign; simpl; rewrite Hne; reflexivity.
Qed.

Lemma strip_single (s : Slot) (name : string) (v : JsVal) :
  stripEmptySlots
    (put_slot (mkParams (Some empty_object) (Some empty_object) (Some empty_object)
                 (Some empty_object)) s (Some (VObj Plain [(name, v)])))
  = only_slot s (VObj Plain [(name, v)]).
Proof. now destruct s. Qed.

(** X2. The slot and the name of a keyed [Field] come from the lookup, not
    from the entry itself: when the config starts with a [Field] of key [k]
    and ends with another [Field] of the same key, the first argument is
    stored in the slot, and under the rename, of the last one. *)
Theorem redeclared_key_follows_last_declaration
  (f1 f2 : Field) (mid : FieldsConfig) (k : string) (arg : JsVal) :
  present (key f1) = Some k ->
  present (key f2) = Some k ->
  name_of (map f2) k <> "__proto__" ->
  buildClientParams [arg] (AField f1 :: mid ++ [AField f2])
  = Normal (only_slot (in_ f2) (VObj Plain [(name_of (map f2) k, arg)])).
Proof.
  intros H1 H2 Hne. unfold buildClientParams, fill. simpl. rewrite H1.
  change (AField f1 :: mid ++ [AField f2]) with ((AField f1 :: mid) ++ [AField f2]).
  rewrite (last_declaration_wins _ _ _ H2).
  rewrite (assign_initial _ _ _ Hne). simpl. now rewrite strip_single.
Qed.

Lemma redeclared_key_follows_last_declaration_witness :
  buildClientParams [VStr "7"]
    (AField (mkField Path (Some "id") None)
     :: [] ++ [AField (mkField Query (Some "id") (Some "ident"))])
  = Normal (only_slot Query (VObj Plain [("ident", VStr "7")])).
Proof.
  apply (redeclared_key_follows_last_declaration
           (mkField Path (Some "id") None) (mkField Query (Some "id") (Some "ident"))
           [] "id" (VStr "7")); [reflexivity | reflexivity | discriminate].
Defined.

Lemma active_nil (i : nat) : active [] i = None.
Proof. induction i as [| i IH]; [reflexivity | exact IH]. Qed.

Lemma loop_no_config (kmap : KeyMap) (rest : list JsVal) :
  forall index p, active [] index = None ->
                  loop kmap [] index (carried [] index) p rest = Normal p.
Proof.
  induction rest as [| arg rest IH]; intros index p _; [reflexivity |].
  rewrite ParamsTheory.loop_active, active_nil. apply IH. apply active_nil.
Qed.

(** X3. Without a config nothing is mapped, and without arguments nothing
    is either: for every argument list the result under the empty config is
    [{}], and so is the result of every config on the empty argument
    list. *)
Theorem nothing_to_map (args : list JsVal) (fields : FieldsConfig) :
  buildClientParams args [] = Normal no_params /\
  buildClientParams [] fields = Normal no_params.
Proof.
  split; [| reflexivity].
  unfold buildClientParams, fill.
  change (@None FieldOrFields) with (carried [] 0).
  rewrite loop_no_config by apply active_nil. reflexivity.
Qed.

(** X4. A write by name into a body that is not an object throws: when a
    keyless [Field] has made a primitive, [null] or [undefined] the body and
    the next position is a [Field] of the body slot with a key, the call
    ends in a [TypeError] instead of returning. *)
Theorem keyed_write_into_primitive_body_throws
  (s0 : Slot) (m0 rename : option string) (k : string) (v w : JsVal) :
  (forall cls props, v <> VObj cls props) ->
  k <> "" ->
  name_of rename k <> "__proto__" ->
  buildClientParams [v; w]
    [AField (mkField s0 None m0); AField (mkField Body (Some k) rename)]
  = Throw TypeError.
Proof.
  intros Hv Hk Hne. apply String.eqb_neq in Hk, Hne.
  unfold buildClientParams, fill, buildKeyMap. simpl.
  unfold setKey at 1. simpl. unfold setKey. simpl. rewrite Hk.
  rewrite lookup_insert_eq. unfold assign. simpl.
  destruct v as [| | b | n | s | cls props]; simpl; rewrite ?Hne; try reflexivity.
  destruct (Hv cls props eq_refl).
Qed.

Lemma keyed_write_into_primitive_body_throws_witness :
  buildClientParams [VStr "hello"; VNum 1]
    [AField (mkField Body None None); AField (mkField Body (Some "a") None)]
  = Throw TypeError.
Proof.
  apply (keyed_write_into_primitive_body_throws Body None None "a" (VStr "hello") (VNum 1));
    discriminate.
Defined.


(** ** Runs that cannot throw *)



Lemma active_In (fields : FieldsConfig) (i : nat) (c : FieldOrFields) :
  active fields i = Some c -> In c fields.
Proof.
  induction i as [| i IH]; simpl; destruct (fields !! _) as [c0 |] eqn:E; intros H;
    try discriminate; try (injection H as <-; apply list_elem_of_In;
                           now apply list_elem_of_lookup_2 in E).
  now apply IH.
Qed.





Lemma step_inert (kmap : KeyMap) (g : Fields) (p : Params) (arg : JsVal) :
  inert arg = true -> step kmap (AFields g) p arg = Normal p.
Proof. destruct arg; try discriminate; reflexivity. Qed.

Lemma loop_inert (kmap : KeyMap) (fields : FieldsConfig) (rest : list JsVal) :
  (forall c, In c fields -> exists g, c = AFields g) ->
  Forall (fun arg => inert arg = true) rest ->
  forall index p, loop kmap fields index (carried fields index) p rest = Normal p.
Proof.
  intros Hgroups Hrest. induction Hrest as [| arg rest Harg _ IH]; intros index p;
    [reflexivity |].
  rewrite ParamsTheory.loop_active. destruct (active fields index) as [c |] eqn:Hc; [| apply IH].
  destruct (Hgroups c (active_In _ _ _ Hc)) as [g ->].
  rewrite (step_inert _ _ _ _ Harg). simpl. apply IH.
Qed.

(** X6. Under a [Fields] group an argument that is [undefined], [null], a
    boolean or a number has no entries and is passed over without error:
    when the config consists of groups only and every argument is of that
    kind, the result is [{}]. *)
Theorem arguments_without_entries_are_ignored (fields : FieldsConfig) (args : list JsVal) :
  (forall c, In c fields -> exists g, c = AFields g) ->
  Forall (fun arg => inert arg = true) args ->
  buildClientParams args fields = Normal no_params.
Proof.
  intros Hgroups Hargs. unfold buildClientParams, fill.
  change (@None FieldOrFields) with (carried fields 0).
  now rewrite (loop_inert _ _ _ Hgroups Hargs).
Qed.

Lemma arguments_without_entries_are_ignored_witness :
  buildClientParams [VNull; VUndefined; VNum 3]
    [AFields (mkFields (Some [(Query, true)]) None)] = Normal no_params.
Proof.
  apply (arguments_without_entries_are_ignored
           [AFields (mkFields (Some [(Query, true)]) None)] [VNull; VUndefined; VNum 3]).
  - intros c [<- | []]. eauto.
  - repeat constructor.
Defined.


(** ** Extra keys *)

Lemma substring_all (s : string) : String.substring 0 (String.length s) s = s.
Proof. induction s as [| c s IH]; simpl; [reflexivity | now rewrite IH]. Qed.

Lemma route_prefixed (kmap : KeyMap) (g : Fields) (prefix : string) (slot : Slot)
  (name : string) :
  In (prefix, slot) extraPrefixes ->
  kmap !! (prefix +:+ name) = None ->
  route kmap g (prefix +:+ name) = Some (slot, name).
Proof.
  intros Hin Hk. unfold route. rewrite Hk. simpl in Hin.
  assert (Hempty : String.prefix "" name = true) by now destruct name.
  repeat (destruct Hin as [[= <- <-] | Hin];
          [cbv [String.append]; simpl; rewrite Hempty; unfold slice_from; simpl;
           now rewrite ?Nat.sub_0_r, substring_all |]).
  destruct Hin.
Qed.

(** X7. Prefix routing: an object argument under a [Fields] group that
    has the one key [prefix +:+ name], for a reserved prefix and a name that
    the config does not declare with the prefix on, gives a result whose only
    slot is the one the prefix names, holding the value under [name], the
    prefix stripped. *)
Theorem prefixed_key_is_routed (g : Fields) (prefix : string) (slot : Slot)
  (name : string) (value : JsVal) (cls : ObjClass) :
  In (prefix, slot) extraPrefixes ->
  buildKeyMap [AFields g] None !! (prefix +:+ name) = None ->
  name <> "__proto__" ->
  buildClientParams [VObj cls [(prefix +:+ name, value)]] [AFields g]
  = Normal (only_slot slot (VObj Plain [(name, value)])).
Proof.
  intros Hin Hk Hne. unfold buildClientParams, fill. simpl.
  rewrite (route_prefixed _ g _ _ _ Hin Hk).
  rewrite (assign_initial _ _ _ Hne). simpl. now rewrite strip_single.
Qed.

Lemma prefixed_key_is_routed_witness :
  buildClientParams [VObj Plain [("$query_" +:+ "foo", VNum 2)]] [AFields (mkFields None None)]
  = Normal (only_slot Query (VObj Plain [("foo", VNum 2)])).
Proof.
  apply (prefixed_key_is_routed (mkFields None None) "$query_" Query "foo" (VNum 2) Plain);
    [do 3 right; now left | reflexivity | discriminate].
Defined.

Lemma upsert_fresh (name : string) (value : JsVal) (props : list (string * JsVal)) :
  ~ In name (List.map fst props) -> upsert name value props = props ++ [(name, value)].
Proof.
  induction props as [| [k v] rest IH]; simpl; intros Hnot; [reflexivity |].
  destruct (String.eqb_spec k name) as [-> | _]; [destruct Hnot; now left |].
  rewrite IH; [reflexivity |]. intros H. apply Hnot. now right.
Qed.

Lemma put_put (p : Params) (s : Slot) (a b : option JsVal) :
  put_slot (put_slot p s a) s b = put_slot p s b.
Proof. now destruct s. Qed.

Lemma route_extra (kmap : KeyMap) (g : Fields) (k : string) (slot : Slot) (allowed : bool) :
  kmap !! k = None ->
  (forall prefix s, In (prefix, s) extraPrefixes -> String.prefix prefix k = false) ->
  List.find (fun '(_, a) => a) (default [] (allowExtra g)) = Some (slot, allowed) ->
  route kmap g k = Some (slot, k).
Proof.
  intros Hk Hp Ha. unfold route. rewrite Hk.
  replace (List.find _ extraPrefixes) with (@None (string * Slot)); [now rewrite Ha |].
  symmetry. apply ParamsTheory.find_none_iff. intros [prefix s] Hin. eapply Hp; eauto.
Qed.

Lemma copy_entries (kmap : KeyMap) (g : Fields) (slot : Slot) (allowed : bool)
  (props : list (string * JsVal)) :
  List.find (fun '(_, a) => a) (default [] (allowExtra g)) = Some (slot, allowed) ->
  (forall k, In k (List.map fst props) ->
     kmap !! k = None /\ k <> "__proto__" /\
     forall prefix s, In (prefix, s) extraPrefixes -> String.prefix prefix k = false) ->
  NoDup (List.map fst props) ->
  forall p acc,
    get_slot p slot = Some (VObj Plain acc) ->
    (forall k, In k (List.map fst props) -> ~ In k (List.map fst acc)) ->
    foldC (place kmap g) props p
    = Normal (put_slot p slot (Some (VObj Plain (acc ++ props)))).
Proof.
  intros Ha. induction props as [| [k v] rest IH]; intros Hkeys Hnd p acc Hp Hfresh.
  - simpl. rewrite app_nil_r. f_equal. destruct p, slot; simpl in *; congruence.
  - simpl in Hnd. apply NoDup_cons in Hnd as [Hk Hnd]. rewrite list_elem_of_In in Hk.
    destruct (Hkeys k (or_introl eq_refl)) as (Hlook & Hproto & Hpre).
    simpl. rewrite (route_extra _ _ _ _ _ Hlook Hpre Ha).
    unfold assign. rewrite Hp. unfold set_property.
    apply String.eqb_neq in Hproto. rewrite Hproto. simpl.
    rewrite upsert_fresh by (apply Hfresh; now left).
    rewrite (IH (fun k0 H0 => Hkeys k0 (or_intror H0)) Hnd _ (acc ++ [(k, v)])).
    + now rewrite put_put, <- app_assoc.
    + apply ParamsTheory.get_put_same.
    + intros k0 Hk0. rewrite map_app, in_app_iff. simpl.
      intros [Hacc | [<- | []]]; [| contradiction].
      revert Hacc. apply Hfresh. now right.
Qed.

(** X8. Extra keys are copied as they are: under a [Fields] group whose
    first truthy [allowExtra] entry is [slot], an object argument whose keys
    are distinct, undeclared, without reserved prefix and other than
    [__proto__] comes back as that slot, entry by entry and in order, and no
    other slot is returned. *)
Theorem extra_keys_are_copied (g : Fields) (slot : Slot) (allowed : bool)
  (cls : ObjClass) (k0 : string) (v0 : JsVal) (props : list (string * JsVal)) :
  List.find (fun '(_, a) => a) (default [] (allowExtra g)) = Some (slot, allowed) ->
  (forall k, In k (List.map fst ((k0, v0) :: props)) ->
     buildKeyMap [AFields g] None !! k = None /\ k <> "__proto__" /\
     forall prefix s, In (prefix, s) extraPrefixes -> String.prefix prefix k = false) ->
  NoDup (List.map fst ((k0, v0) :: props)) ->
  buildClientParams [VObj cls ((k0, v0) :: props)] [AFields g]
  = Normal (only_slot slot (VObj Plain ((k0, v0) :: props))).
Proof.
  intros Ha Hkeys Hnd. unfold buildClientParams, fill.
  cbn [loop lookup list_lookup step coalesce nullish Object_entries].
  rewrite (copy_entries _ g slot allowed _ Ha Hkeys Hnd _ []).
  - simpl. now destruct slot.
  - now destruct slot.
  - intros k _ [].
Qed.

Lemma extra_keys_are_copied_witness :
  buildClientParams [VObj Plain [("page", VNum 2); ("size", VNum 10)]]
    [AFields (mkFields (Some [(Body, false); (Query, true)]) None)]
  = Normal (only_slot Query (VObj Plain [("page", VNum 2); ("size", VNum 10)])).
Proof.
  apply (extra_keys_are_copied (mkFields (Some [(Body, false); (Query, true)]) None)
           Query true Plain "page" (VNum 2) [("size", VNum 10)]).
  - reflexivity.
  - intros k Hk. simpl in Hk. split; [reflexivity |].
    destruct Hk as [<- | [<- | []]];
      (split; [discriminate |]); intros prefix s Hin; simpl in Hin;
      repeat (destruct Hin as [[= <- <-] | Hin]; [reflexivity |]); destruct Hin.
  - simpl. apply NoDup_cons_2.
    + intros H. apply list_elem_of_In in H. destruct H as [H | []]. discriminate H.
    + apply NoDup_cons_2; [apply not_elem_of_nil | apply NoDup_nil_2].
Defined.

(** ** Runs that write to no object of the caller *)








End ParamsMoreTheory.

(** * Further properties of the request executor *)
Module ClientStagesTheory.
Import Client ClientStages.

Section Executor.

Variables (Request Headers HeadersInit Security Rest : Type).
Variable mergeHeaders : option HeadersInit -> option HeadersInit -> Headers.
Variable headers_delete : string -> Headers -> Headers.
Variable spread_rest : Rest -> Rest -> Rest.
Variable setAuthParams : Opts Headers Security Rest -> Security
                         -> Completion (Opts Headers Security Rest).
Variable buildUrl : Opts Headers Security Rest -> Completion string.
Variable getParseAs : option string -> option ParseAs.
Variable new_Request : string -> Opts Headers Security Rest -> Completion Request.
Variable globalThis_fetch : option (Request -> Completion Response).
Variable JSON_parse : string -> option JsVal.

Abbreviation merged :=
  (merge_opts Request Headers HeadersInit Security Rest mergeHeaders spread_rest).
Abbreviation merged_hooks :=
  (merge_hooks Request Headers HeadersInit Security Rest globalThis_fetch).
Abbreviation build' :=
  (build Request Headers HeadersInit Security Rest mergeHeaders headers_delete
     spread_rest setAuthParams buildUrl new_Request globalThis_fetch).
Abbreviation send' :=
  (send Request Headers HeadersInit Security Rest mergeHeaders headers_delete
     spread_rest setAuthParams buildUrl new_Request globalThis_fetch).
Abbreviation settle' :=
  (settle Request Headers Security Rest getParseAs JSON_parse).
Abbreviation request' :=
  (request Request Headers HeadersInit Security Rest mergeHeaders headers_delete
     spread_rest setAuthParams buildUrl getParseAs new_Request globalThis_fetch
     JSON_parse).

Implicit Types (opts : Opts Headers Security Rest)
  (hooks : Hooks Request Headers Security Rest)
  (interceptors : Interceptors Request Headers Security Rest)
  (req : Request) (resp : Response).

(** [send] is [build], then the request interceptors, the transport and
    the response interceptors. *)
Lemma send_stages _config interceptors options :
  send' _config interceptors options
  = let* (opts, hooks, r0) := build' _config options in
    let* r := run_request_fns (request_fns interceptors) opts r0 in
    let* resp0 := transport hooks r in
    let* resp := run_response_fns (response_fns interceptors) opts r resp0 in
    Normal (opts, hooks, r, resp).
Proof.
  unfold send, build.
  repeat match goal with
         | |- cbind ?c _ = cbind (cbind ?c _) _ => destruct c; simpl; try reflexivity
         end.
Qed.

Lemma foldC_app {A B} (f : A -> B -> Completion A) (l1 l2 : list B) (a : A) :
  foldC f (l1 ++ l2) a = let* a1 := foldC f l1 a in foldC f l2 a1.
Proof.
  revert a. induction l1 as [| x l1 IH]; intros a; simpl; [reflexivity |].
  destruct (f a x); simpl; [apply IH | reflexivity ..].
Qed.

Lemma request_of_send _config interceptors options opts hooks req resp :
  send' _config interceptors options = Normal (opts, hooks, req, resp) ->
  request' _config interceptors options = settle' interceptors opts hooks req resp.
Proof. unfold request. now intros ->. Qed.

(** ** Before the transport *)

(** X9. A failure of the transport is not turned into an error value:
    when the request that leaves the request interceptors makes the
    transport reject (or there is no transport to call), the call rejects
    with that very value, whatever [throwOnError] and the response style
    are. *)
Theorem transport_failure_propagates _config interceptors options opts hooks r0 req
  (e : JsVal) :
  build' _config options = Normal (opts, hooks, r0) ->
  run_request_fns (request_fns interceptors) opts r0 = Normal req ->
  transport hooks req = Throw e ->
  request' _config interceptors options = Throw e.
Proof.
  intros Hb Hr Ht. unfold request. rewrite send_stages, Hb. simpl.
  rewrite Hr. simpl. now rewrite Ht.
Qed.

(** X10. A request validator that rejects ends the call before anything is
    sent: the call rejects with the validator's value, whatever the
    serializer, the interceptors and the transport are. *)
Theorem rejected_request_is_not_sent _config interceptors options opts1
  (validate : Opts Headers Security Rest -> Completion unit) (e : JsVal) :
  match security (merged _config options) with
  | Some s => setAuthParams (merged _config options) s
  | None => Normal (merged _config options)
  end = Normal opts1 ->
  requestValidator (merged_hooks _config options) = Some validate ->
  validate opts1 = Throw e ->
  request' _config interceptors options = Throw e.
Proof.
  intros Ha Hv He. unfold request, send. rewrite Ha. cbn [cbind]. rewrite Hv.
  cbn [cbind call_if]. now rewrite He.
Qed.

(** X11. What body and which headers the request is built from.  The body
    serializer is applied to a truthy body only: a body of [0], [false],
    [null], [undefined] or the empty string stays as it is, and so does every
    body when there is no serializer.  The [Content-Type] header is deleted
    exactly when the body, after that, is [undefined] or the empty string (not
    when it is [null]). *)
Theorem body_and_content_type _config options opts1 opts hooks req :
  match security (merged _config options) with
  | Some s => setAuthParams (merged _config options) s
  | None => Normal (merged _config options)
  end = Normal opts1 ->
  build' _config options = Normal (opts, hooks, req) ->
  (truthy (body opts1) = false \/ bodySerializer hooks = None -> body opts = body opts1) /\
  (forall serialize, bodySerializer hooks = Some serialize -> truthy (body opts1) = true ->
                     serialize (body opts1) = Normal (body opts)) /\
  headers opts = (if body_is_empty (body opts)
                  then headers_delete "Content-Type" (headers opts1)
                  else headers opts1).
Proof.
  intros Ha Hb. unfold build in Hb. rewrite Ha in Hb. cbn [cbind] in Hb.
  apply cbind_Normal in Hb as (? & _ & Hb).
  apply cbind_Normal in Hb as (opts2 & Hser & Hb).
  apply cbind_Normal in Hb as (url & _ & Hb).
  apply cbind_Normal in Hb as (r & _ & Hb).
  injection Hb as <- <- <-.
  assert (Hh : headers opts2 = headers opts1).
  { destruct (bodySerializer _) as [serialize |]; [| now injection Hser as <-].
    destruct (truthy (body opts1)); [| now injection Hser as <-].
    apply cbind_Normal in Hser as (b & _ & [= <-]). reflexivity. }
  split; [| split].
  - intros Hcase. assert (opts2 = opts1) as ->.
    { destruct (bodySerializer _) as [serialize |].
      - destruct Hcase as [Hf | Hn]; [| discriminate]. rewrite Hf in Hser.
        now injection Hser.
      - now injection Hser. }
    now destruct (body_is_empty (body opts1)).
  - intros serialize Hs Ht. rewrite Hs, Ht in Hser.
    apply cbind_Normal in Hser as (b & Hb & [= <-]). rewrite Hb. f_equal.
    now destruct (body_is_empty _).
  - rewrite <- Hh. now destruct (body_is_empty (body opts2)) eqn:E; simpl; rewrite ?E.
Qed.

(** X12. The request interceptors form a chain in registration order: the
    request handed to the transport is the one obtained by running the first
    part of the list on the built request and the rest of the list on the
    outcome of the first part.  An ejected interceptor (a hole in the list)
    passes the request on unchanged. *)
Theorem request_interceptors_compose _config interceptors options opts hooks r0 r1 r2 resp
  (fns1 fns2 : list (option (Request -> Opts Headers Security Rest -> Completion Request))) :
  build' _config options = Normal (opts, hooks, r0) ->
  request_fns interceptors = fns1 ++ None :: fns2 ->
  run_request_fns fns1 opts r0 = Normal r1 ->
  run_request_fns fns2 opts r1 = Normal r2 ->
  transport hooks r2 = Normal resp ->
  response_fns interceptors = [] ->
  send' _config interceptors options = Normal (opts, hooks, r2, resp).
Proof.
  intros Hb Hfns H1 H2 Ht Hresp. rewrite send_stages, Hb. simpl.
  rewrite Hfns. unfold run_request_fns in *. rewrite foldC_app, H1. simpl.
  rewrite H2. simpl. rewrite Ht, Hresp. reflexivity.
Qed.

(** ** After the response *)

Lemma run_error_fns_holes_and_returns interceptors opts req resp (error : JsVal)
  (fns : list (option (JsVal -> Response -> Request -> Opts Headers Security Rest
                       -> Completion JsVal))) :
  (forall f, In (Some f) fns -> exists v, f error resp req opts = Normal v) ->
  forall start, exists v,
    foldC (fun finalError fn => match fn with
                                | Some f => f error resp req opts
                                | None => Normal finalError
                                end) fns start = Normal v.
Proof.
  induction fns as [| [f |] fns IH]; intros Hall start; simpl; [eauto | |].
  - destruct (Hall f (or_introl eq_refl)) as [v ->]. simpl.
    apply IH. intros g Hg. apply Hall. now right.
  - apply IH. intros g Hg. apply Hall. now right.
Qed.

(** X13. The error interceptors are not chained: each of them is called
    on the error value parsed from the response, and what the earlier ones
    return is dropped.  When the last registered interceptor [g] is not
    ejected and the earlier ones return, the error of the call is what [g]
    makes of the parsed error (or [{}] if that is falsy). *)
Theorem last_error_interceptor_decides interceptors opts hooks req resp
  (textError : string) (fe : JsVal)
  (fns : list (option (JsVal -> Response -> Request -> Opts Headers Security Rest
                       -> Completion JsVal)))
  (g : JsVal -> Response -> Request -> Opts Headers Security Rest -> Completion JsVal) :
  ok resp = false ->
  text resp = Normal textError ->
  error_fns interceptors = fns ++ [Some g] ->
  (forall f, In (Some f) fns ->
     exists v, f (coalesce (default VUndefined (JSON_parse textError)) (VStr textError))
                 resp req opts = Normal v) ->
  g (coalesce (default VUndefined (JSON_parse textError)) (VStr textError)) resp req opts
  = Normal fe ->
  settle' interceptors opts hooks req resp
  = (if throwOnError opts then Throw (or_else fe empty_object)
     else Normal (with_error opts req resp (or_else fe empty_object))).
Proof.
  intros Hok Ht Hfns Hall Hg. unfold settle, run_error_fns.
  rewrite Hok, Ht. cbn [cbind]. rewrite Hfns, foldC_app.
  destruct (run_error_fns_holes_and_returns interceptors opts req resp _ fns Hall
              (coalesce (default VUndefined (JSON_parse textError)) (VStr textError)))
    as [v ->].
  cbn [cbind foldC]. rewrite Hg. reflexivity.
Qed.

(** X14. The response validator and the response transformer matter in
    json mode only: after a non-2xx response, after a response without
    content, and in every parse mode other than ['json'], the outcome of the
    call is the same whatever functions are configured. *)
Theorem response_hooks_only_in_json_mode interceptors opts hooks hooks' req resp :
  ok resp = false \/ no_content resp = true
  \/ resolve_parseAs Headers Security Rest getParseAs opts resp <> Json ->
  settle' interceptors opts hooks req resp = settle' interceptors opts hooks' req resp.
Proof.
  intros Hcase. unfold settle. destruct (ok resp); [| reflexivity].
  destruct (no_content resp); [reflexivity |].
  destruct Hcase as [Hc | [Hc | Hc]]; try discriminate.
  destruct (resolve_parseAs _ _ _ _ opts resp); [reflexivity .. | | reflexivity | reflexivity].
  now destruct Hc.
Qed.

(** X15. In json mode a response validator that rejects ends the call:
    it rejects with the validator's value, the transformer is not applied
    and no data is returned.  The validator is given the data as parsed. *)
Theorem rejected_response_is_not_returned interceptors opts hooks req resp
  (parsed e : JsVal) (validate : JsVal -> Completion unit) :
  ok resp = true ->
  no_content resp = false ->
  resolve_parseAs Headers Security Rest getParseAs opts resp = Json ->
  json resp = Normal parsed ->
  responseValidator hooks = Some validate ->
  validate parsed = Throw e ->
  settle' interceptors opts hooks req resp = Throw e.
Proof.
  intros Hok Hnc Hmode Hjson Hv He. unfold settle.
  rewrite Hok, Hnc, Hmode. cbn [read_body]. rewrite Hjson. cbn [cbind].
  rewrite Hv. cbn [call_if]. now rewrite He.
Qed.

(** X16. A body that cannot be read makes the call reject, on both
    branches and whatever [throwOnError] is: after a 2xx response with
    content when the reader of the resolved parse mode rejects, and after a
    non-2xx response when [text()] rejects. *)
Theorem unreadable_body_rejects interceptors opts hooks req resp (e : JsVal) :
  (ok resp = true -> no_content resp = false ->
   resolve_parseAs Headers Security Rest getParseAs opts resp <> Stream ->
   read_body resp (resolve_parseAs Headers Security Rest getParseAs opts resp) = Throw e ->
   settle' interceptors opts hooks req resp = Throw e) /\
  (ok resp = false -> text resp = Throw e ->
   settle' interceptors opts hooks req resp = Throw e).
Proof.
  split.
  - intros Hok Hnc Hmode Hread. unfold settle. rewrite Hok, Hnc.
    destruct (resolve_parseAs _ _ _ _ opts resp); try (now rewrite Hread);
      now destruct Hmode.
  - intros Hok Ht. unfold settle. now rewrite Hok, Ht.
Qed.

(** X17. After a non-2xx response whose body text is not valid JSON, and
    with no error interceptor registered, the error value is the raw text,
    and [{}] when the text is empty. *)
Theorem error_value_of_unparseable_body interceptors opts hooks req resp
  (textError : string) :
  ok resp = false ->
  text resp = Normal textError ->
  JSON_parse textError = None ->
  error_fns interceptors = [] ->
  settle' interceptors opts hooks req resp
  = (if throwOnError opts
     then Throw (if String.eqb textError "" then empty_object else VStr textError)
     else Normal (with_error opts req resp
                    (if String.eqb textError "" then empty_object else VStr textError))).
Proof.
  intros Hok Ht Hj Hfns. unfold settle, run_error_fns.
  rewrite Hok, Ht. cbn [cbind]. rewrite Hj, Hfns. cbn.
  unfold or_else. cbn. now destruct (String.eqb textError "").
Qed.

End Executor.


Lemma transport_failure_propagates_witness :
  request_with (mkInterceptors [] [] [])
    (options_with Missing None None None (fun _ => Throw (VStr "offline")))
  = Throw (VStr "offline").
Proof.
  unfold request_with.
  eapply transport_failure_propagates; reflexivity.
Defined.


Lemma rejected_request_is_not_sent_witness :
  request_with (mkInterceptors [] [] [])
    (options_with Missing None (Some (fun _ => Throw (VStr "invalid"))) None
       (fun _ => Normal (plain_response 200 None "unused")))
  = Throw (VStr "invalid").
Proof.
  unfold request_with.
  eapply rejected_request_is_not_sent; reflexivity.
Defined.

Lemma body_and_content_type_witness :
  build_on (options_with (Has (VNum 0)) (Some (fun _ => Normal (VStr "0"))) None None
              (fun _ => Normal (plain_response 200 None "unused")))
  = Normal (mkOpts (VNum 0) tt None None None false "/",
            mkHooks (Some (fun _ => Normal (plain_response 200 None "unused")))
              None (Some (fun _ => Normal (VStr "0"))) None None,
            "/") /\
  (truthy (VNum 0) = false \/
   bodySerializer
     (mkHooks (Some (fun _ : string => Normal (plain_response 200 None "unused")))
        (None : option (Opts unit unit string -> Completion unit))
        (Some (fun _ => Normal (VStr "0"))) None None) = None ->
   body (mkOpts (VNum 0) tt None None (None : option unit) false "/")
   = body (mkOpts (VNum 0) tt None None (None : option unit) false "/")).
Proof.
  split; [reflexivity |].
  eapply (body_and_content_type string unit unit unit string
            (fun _ _ => tt) (fun _ h => h) (fun _ b => b)
            (fun opts _ => Normal opts) (fun opts => Normal (rest opts))
            (fun url _ => Normal url) None
            (mkConfig Missing Missing Missing Missing Missing Missing ""
               Missing Missing Missing Missing Missing)
            (options_with (Has (VNum 0)) (Some (fun _ => Normal (VStr "0"))) None None
               (fun _ => Normal (plain_response 200 None "unused")))
            (mkOpts (VNum 0) tt None None None false "/")
            (mkOpts (VNum 0) tt None None None false "/")
            (mkHooks (Some (fun _ => Normal (plain_response 200 None "unused")))
               None (Some (fun _ => Normal (VStr "0"))) None None)
            "/");
    reflexivity.
Defined.

Lemma request_interceptors_compose_witness :
  send_with
    (mkInterceptors
       ([Some (fun (r : string) (_ : Opts unit unit string) => Normal (r +:+ "a"))]
        ++ None :: [Some (fun (r : string) (_ : Opts unit unit string) => Normal (r +:+ "b"))])
       [] [])
    (options_with Missing None None None (fun url => Normal (plain_response 200 None url)))
  = Normal (mkOpts VUndefined tt None None None false "/",
            mkHooks (Some (fun url => Normal (plain_response 200 None url)))
              None None None None,
            "/ab", plain_response 200 None "/ab").
Proof.
  unfold send_with.
  eapply request_interceptors_compose; reflexivity.
Defined.

Lemma last_error_interceptor_decides_witness :
  settle_on
    (mkInterceptors [] []
       ([Some (fun _ _ _ _ => Normal (VStr "first"))]
        ++ [Some (fun (error : JsVal) _ _ _ => Normal error)]))
    (opts_for None false None) (hooks_for (plain_response 500 None "true")) "/"
    (plain_response 500 None "true")
  = Normal (Enveloped (mkEnvelope None (Some (VBool true)) "/"
                         (plain_response 500 None "true"))).
Proof.
  unfold settle_on.
  eapply (last_error_interceptor_decides string unit unit string (fun _ => None)
            JSON_parse_literal _ (opts_for None false None) _ _ _ "true" (VBool true));
    [reflexivity | reflexivity | reflexivity | | reflexivity].
  intros f [[= <-] | []]. eexists. reflexivity.
Defined.

Lemma response_hooks_only_in_json_mode_witness :
  settle_on (mkInterceptors [] [] []) (opts_for None false (Some (Fixed Text)))
    (mkHooks None None None (Some (fun _ => Throw (VStr "never asked"))) None) "/"
    (plain_response 200 None "plain")
  = settle_on (mkInterceptors [] [] []) (opts_for None false (Some (Fixed Text)))
      (mkHooks None None None None None) "/" (plain_response 200 None "plain").
Proof.
  unfold settle_on.
  apply response_hooks_only_in_json_mode. right. right. discriminate.
Defined.

Lemma rejected_response_is_not_returned_witness :
  settle_on (mkInterceptors [] [] []) (opts_for None false None)
    (mkHooks None None None (Some (fun _ => Throw (VStr "bad shape"))) None) "/"
    (json_response (VNum 0) "0")
  = Throw (VStr "bad shape").
Proof.
  unfold settle_on.
  eapply rejected_response_is_not_returned; reflexivity.
Defined.

Lemma unreadable_body_rejects_witness :
  settle_on (mkInterceptors [] [] []) (opts_for None false None)
    (mkHooks None None None None None) "/" (plain_response 200 None "not json")
  = Throw TypeError.
Proof.
  unfold settle_on.
  refine (proj1 (unreadable_body_rejects string unit unit string (fun _ => None)
                   JSON_parse_literal _ _ _ _ _ _) _ _ _ _);
    [reflexivity | reflexivity | discriminate | reflexivity].
Defined.

Lemma error_value_of_unparseable_body_witness :
  settle_on (mkInterceptors [] [] []) (opts_for None false None)
    (mkHooks None None None None None) "/" (plain_response 502 None "Bad Gateway")
  = Normal (Enveloped (mkEnvelope None (Some (VStr "Bad Gateway")) "/"
                         (plain_response 502 None "Bad Gateway"))).
Proof.
  unfold settle_on.
  eapply (error_value_of_unparseable_body string unit unit string (fun _ => None)
            JSON_parse_literal _ (opts_for None false None) _ _ _ "Bad Gateway");
    reflexivity.
Defined.

End ClientStagesTheory.

(** * Further properties of the platform services *)
Module ServicesMoreTheory.
Import Services.

Section Run.

Variable World : Type.
Variable platform : forall X, ApiCall X -> World -> (X + JsVal) * World.

Abbreviation run' := (run World platform).

(** A [tryAsync] settles by resolving, whatever its body and the
    platform do. *)
Lemma tryAsync_resolves {T E} (body : Async T) (catch : JsVal -> Result T E) (w : World) :
  exists calls r w', run' (tryAsync body catch) w = (calls, Normal r, w').
Proof.
  revert w. induction body as [a | e | X call k IHk h IHh]; intros w; simpl; [eauto .. |].
  destruct (platform X call w) as [[x | e] w1].
  - destruct (IHk x w1) as (calls & r & w' & ->). eauto.
  - destruct (IHh e w1) as (calls & r & w' & ->). eauto.
Qed.

Lemma run_abind {A B} (p : Async A) (f : A -> Async B) (w : World) :
  run' (abind p f) w
  = let '(calls, settled, w1) := run' p w in
    match settled with
    | Normal a => let '(calls2, settled2, w2) := run' (f a) w1 in
                  (calls ++ calls2, settled2, w2)
    | Throw e => (calls, Throw e, w1)
    | Unmodelled => (calls, Unmodelled, w1)
    end.
Proof.
  revert w. induction p as [a | e | X call k IHk h IHh]; intros w; simpl.
  - now destruct (run' (f a) w) as [[calls2 settled2] w2].
  - reflexivity.
  - destruct (platform X call w) as [[x | e] w1].
    + rewrite IHk. destruct (run' (k x) w1) as [[calls settled] w2].
      destruct settled; [| reflexivity ..].
      now destruct (run' (f a) w2) as [[calls2 settled2] w3].
    + rewrite IHh. destruct (run' (h e) w1) as [[calls settled] w2].
      destruct settled; [| reflexivity ..].
      now destruct (run' (f a) w2) as [[calls2 settled2] w3].
Qed.

(** X18. The permission operations never reject: on macOS or off it,
    whatever the plugin import and the plugin calls do, each of the four
    operations resolves to a result. *)
Theorem permission_operations_resolve (IS_MACOS : bool)
  (extractErrorMessage : JsVal -> string) (w : World) :
  (exists calls r w',
      run' (check (accessibility (createPermissionsService IS_MACOS extractErrorMessage))) w
      = (calls, Normal r, w')) /\
  (exists calls r w',
      run' (request (accessibility (createPermissionsService IS_MACOS extractErrorMessage))) w
      = (calls, Normal r, w')) /\
  (exists calls r w',
      run' (check (microphone (createPermissionsService IS_MACOS extractErrorMessage))) w
      = (calls, Normal r, w')) /\
  (exists calls r w',
      run' (request (microphone (createPermissionsService IS_MACOS extractErrorMessage))) w
      = (calls, Normal r, w')).
Proof.
  destruct IS_MACOS; (split; [| split; [| split]]);
    solve [apply tryAsync_resolves | simpl; eauto].
Qed.

(** X19. On macOS a permission check passes on what the plugin answers:
    when the import of the plugin and the plugin call succeed, the result
    is [Ok] of the plugin's answer, and these two are the calls made. *)
Theorem permission_check_on_macos (extractErrorMessage : JsVal -> string)
  (w w1 w2 : World) (granted : bool) :
  platform _ import_macos_permissions w = (inl tt, w1) ->
  (platform _ checkAccessibilityPermission w1 = (inl granted, w2) ->
   run' (check (accessibility (createPermissionsService true extractErrorMessage))) w
   = ([called import_macos_permissions; called checkAccessibilityPermission],
      Normal (Ok granted), w2)) /\
  (platform _ checkMicrophonePermission w1 = (inl granted, w2) ->
   run' (check (microphone (createPermissionsService true extractErrorMessage))) w
   = ([called import_macos_permissions; called checkMicrophonePermission],
      Normal (Ok granted), w2)).
Proof.
  intros Hi. split; intros Hc; simpl; rewrite Hi; simpl; rewrite Hc; reflexivity.
Qed.

(** X20. On macOS a failure of the plugin is returned, not thrown.  When
    the import of the plugin rejects with [e], each operation resolves to
    the error [PermissionsServiceErr] builds, whose message names the
    operation and ends with the message extracted from [e], with [e] as
    cause, and the plugin is not called; when the import succeeds and the
    plugin call rejects, the accessibility check does the same after both
    calls. *)
Theorem permission_failure_is_returned (extractErrorMessage : JsVal -> string)
  (w w1 w2 : World) (e : JsVal) :
  (platform _ import_macos_permissions w = (inr e, w1) ->
   run' (check (accessibility (createPermissionsService true extractErrorMessage))) w
   = ([called import_macos_permissions],
      Normal (PermissionsServiceErr
                ("Failed to check accessibility permissions: " +:+ extractErrorMessage e) e), w1) /\
   run' (request (accessibility (createPermissionsService true extractErrorMessage))) w
   = ([called import_macos_permissions],
      Normal (PermissionsServiceErr
                ("Failed to request accessibility permissions: " +:+ extractErrorMessage e) e), w1) /\
   run' (check (microphone (createPermissionsService true extractErrorMessage))) w
   = ([called import_macos_permissions],
      Normal (PermissionsServiceErr
                ("Failed to check microphone permissions: " +:+ extractErrorMessage e) e), w1) /\
   run' (request (microphone (createPermissionsService true extractErrorMessage))) w
   = ([called import_macos_permissions],
      Normal (PermissionsServiceErr
                ("Failed to request microphone permissions: " +:+ extractErrorMessage e) e), w1)) /\
  (platform _ import_macos_permissions w = (inl tt, w1) ->
   platform _ checkAccessibilityPermission w1 = (inr e, w2) ->
   run' (check (accessibility (createPermissionsService true extractErrorMessage))) w
   = ([called import_macos_permissions; called checkAccessibilityPermission],
      Normal (PermissionsServiceErr
                ("Failed to check accessibility permissions: " +:+ extractErrorMessage e) e),
      w2)).
Proof.
  split.
  - intros Hi. repeat split; simpl; rewrite Hi; reflexivity.
  - intros Hi Hc. simpl. rewrite Hi. simpl. rewrite Hc. reflexivity.
Qed.

(** ** Removing a notification *)

Lemma removeNotificationById_resolves (wanted : Z) (w : World) :
  exists calls r w', run' (removeNotificationById wanted) w = (calls, Normal r, w').
Proof.
  unfold removeNotificationById. simpl.
  destruct (platform _ active w) as [[listed | e] w1]; simpl; [| eauto].
  destruct (List.find _ listed) as [n |]; simpl; [| eauto].
  destruct (platform _ (removeActive [n]) w1) as [[[] | e] w2]; simpl; eauto.
Qed.

(** X21. [clear] never rejects: whatever the platform does, it resolves
    to a result. *)
Theorem clear_resolves (hashNanoidToNumber : string -> Z) (idStringified : string)
  (w : World) :
  exists calls r w', run' (clear hashNanoidToNumber idStringified) w = (calls, Normal r, w').
Proof. apply removeNotificationById_resolves. Qed.

(** X22. When the listing of the active notifications fails, nothing is
    removed and the failure is returned: the error
    [NotificationServiceErr] builds, with the rejection as cause and the
    numeric id as context. *)
Theorem listing_failure_is_returned (wanted : Z) (w w1 : World) (e : JsVal) :
  platform _ active w = (inr e, w1) ->
  run' (removeNotificationById wanted) w
  = ([called active],
     Normal (NotificationServiceErr "Unable to retrieve active desktop notifications."
               (VObj Plain [("id", VNum wanted)]) e), w1).
Proof. intros Hl. unfold removeNotificationById. simpl. now rewrite Hl. Qed.

(** X23. When the listing succeeds and holds notifications with the
    wanted id, the first of them, and only it, is handed to the platform
    for removal: with the removal succeeding the result is
    [Ok(undefined)]; with the removal rejecting it is the error
    [NotificationServiceErr] builds, whose message names the id. *)
Theorem first_match_is_removed (wanted : Z) (w w1 w2 : World)
  (before after : list ActiveNotification) (n : ActiveNotification) :
  platform _ active w = (inl (before ++ n :: after), w1) ->
  (forall m, In m before -> id m <> wanted) ->
  id n = wanted ->
  (platform _ (removeActive [n]) w1 = (inl tt, w2) ->
   run' (removeNotificationById wanted) w
   = ([called active; called (removeActive [n])], Normal (Ok tt), w2)) /\
  (forall e, platform _ (removeActive [n]) w1 = (inr e, w2) ->
   run' (removeNotificationById wanted) w
   = ([called active; called (removeActive [n])],
      Normal (NotificationServiceErr
                ("Unable to remove notification with id " +:+ pretty wanted +:+ ".")
                (VObj Plain [("id", VNum wanted);
                             ("matchingActiveNotification", ActiveNotification_value n)])
                e), w2)).
Proof.
  intros Hl Hbefore Hn.
  assert (Hfind : List.find (fun notification => (id notification =? wanted)%Z)
                    (before ++ n :: after) = Some n).
  { clear Hl. induction before as [| m before IH]; simpl.
    - now rewrite Hn, Z.eqb_refl.
    - destruct (Z.eqb_spec (id m) wanted) as [E | _].
      + destruct (Hbefore m (or_introl eq_refl) E).
      + apply IH. intros m' Hm'. apply Hbefore. now right. }
  split; [intros Hr | intros e Hr];
    unfold removeNotificationById; simpl; rewrite Hl; simpl; rewrite Hfind; simpl;
    rewrite Hr; reflexivity.
Qed.

End Run.

Lemma permission_check_on_macos_witness :
  listing_platform [] _ import_macos_permissions tt = (inl tt, tt) /\
  run unit (listing_platform [])
    (check (accessibility (createPermissionsService true (fun _ => "no message")))) tt
  = ([called import_macos_permissions; called checkAccessibilityPermission],
     Normal (Ok true), tt).
Proof.
  split; [reflexivity |].
  refine (proj1 (permission_check_on_macos unit (listing_platform [])
                   (fun _ => "no message") tt tt tt true _) _); reflexivity.
Defined.

Lemma permission_failure_is_returned_witness :
  run unit (Notify.rejecting_platform (VStr "no plugin"))
    (request (microphone (createPermissionsService true (fun _ => "no plugin")))) tt
  = ([called import_macos_permissions],
     Normal (Err (mkTaggedError "PermissionsServiceError"
                    "Failed to request microphone permissions: no plugin"
                    VUndefined (VStr "no plugin"))), tt).
Proof.
  refine (proj2 (proj2 (proj2 (proj1 (permission_failure_is_returned unit
            (Notify.rejecting_platform (VStr "no plugin")) (fun _ => "no plugin")
            tt tt tt (VStr "no plugin")) _)))).
  reflexivity.
Defined.

Lemma listing_failure_is_returned_witness :
  run unit (Notify.rejecting_platform (VStr "no plugin")) (removeNotificationById 7) tt
  = ([called active],
     Normal (Err (mkTaggedError "NotificationServiceError"
                    "Unable to retrieve active desktop notifications."
                    (VObj Plain [("id", VNum 7)]) (VStr "no plugin"))), tt).
Proof.
  apply (listing_failure_is_returned unit (Notify.rejecting_platform (VStr "no plugin"))
           7%Z tt tt (VStr "no plugin")).
  reflexivity.
Defined.

Lemma first_match_is_removed_witness :
  run unit (listing_platform [mkActiveNotification 3 VNull; mkActiveNotification 7 VNull;
                              mkActiveNotification 7 (VStr "later")])
    (removeNotificationById 7) tt
  = ([called active; called (removeActive [mkActiveNotification 7 VNull])],
     Normal (Ok tt), tt).
Proof.
  refine (proj1 (first_match_is_removed unit
                   (listing_platform [mkActiveNotification 3 VNull;
                                      mkActiveNotification 7 VNull;
                                      mkActiveNotification 7 (VStr "later")])
                   7%Z tt tt tt [mkActiveNotification 3 VNull]
                   [mkActiveNotification 7 (VStr "later")] (mkActiveNotification 7 VNull)
                   _ _ _) _); try reflexivity.
  intros m [<- | []]. discriminate.
Defined.

End ServicesMoreTheory.

(** * Properties of [notify] *)
Module NotifyTheory.
Import Services Notify.

Section Run.

Variable World : Type.
Variable platform : forall X, Call X -> World -> (X + JsVal) * World.
Variable hashNanoidToNumber : string -> Z.
Variable toTauriNotification : UnifiedNotificationOptions -> JsVal + JsVal.

Abbreviation run_task' := (run_task World platform).
Abbreviation run_plugin := (run World (fun X call => platform X (plugin call))).
Abbreviation notify' := (notify hashNanoidToNumber toTauriNotification).

Lemma run_task_tbind {A B} (p : Task A) (f : A -> Task B) (w : World) :
  run_task' (tbind p f) w
  = let '(calls, settled, w1) := run_task' p w in
    match settled with
    | Normal a => let '(calls2, settled2, w2) := run_task' (f a) w1 in
                  (calls ++ calls2, settled2, w2)
    | Throw e => (calls, Throw e, w1)
    | Unmodelled => (calls, Unmodelled, w1)
    end.
Proof.
  revert w. induction p as [a | e | X call k IHk h IHh]; intros w; simpl.
  - now destruct (run_task' (f a) w) as [[calls2 settled2] w2].
  - reflexivity.
  - destruct (platform X call w) as [[x | e] w1].
    + rewrite IHk. destruct (run_task' (k x) w1) as [[calls settled] w2].
      destruct settled; [| reflexivity ..].
      now destruct (run_task' (f a) w2) as [[calls2 settled2] w3].
    + rewrite IHh. destruct (run_task' (h e) w1) as [[calls settled] w2].
      destruct settled; [| reflexivity ..].
      now destruct (run_task' (f a) w2) as [[calls2 settled2] w3].
Qed.

Lemma run_task_lift {A} (p : Async A) (w : World) :
  run_task' (lift p) w
  = let '(calls, settled, w1) := run_plugin p w in
    (List.map plugin_call calls, settled, w1).
Proof.
  revert w. induction p as [a | e | X call k IHk h IHh]; intros w; simpl;
    [reflexivity | reflexivity |].
  destruct (platform X (plugin call) w) as [[x | e] w1].
  - rewrite IHk. now destruct (run_plugin (k x) w1) as [[calls settled] w2].
  - rewrite IHh. now destruct (run_plugin (h e) w1) as [[calls settled] w2].
Qed.

Lemma tryTask_resolves {T E} (body : Task T) (catch : JsVal -> Result T E) (w : World) :
  exists calls r w', run_task' (tryTask body catch) w = (calls, Normal r, w').
Proof.
  revert w. induction body as [a | e | X call k IHk h IHh]; intros w; simpl; [eauto .. |].
  destruct (platform X call w) as [[x | e] w1].
  - destruct (IHk x w1) as (calls & r & w' & ->). eauto.
  - destruct (IHh e w1) as (calls & r & w' & ->). eauto.
Qed.

Lemma removal_resolved (wanted : Z) (w w0 : World) (calls0 : list Called)
  (settled0 : Completion (Result unit TaggedError)) :
  run_plugin (removeNotificationById wanted) w = (calls0, settled0, w0) ->
  exists r0, settled0 = Normal r0.
Proof.
  intros Hrun.
  destruct (ServicesMoreTheory.removeNotificationById_resolves World
              (fun X call => platform X (plugin call)) wanted w) as (c & r & w' & H).
  rewrite H in Hrun. injection Hrun as _ <- _. eauto.
Qed.

(** The run of [notify] with a given id, split after the removal of the
    earlier notification. *)
Lemma run_notify (options : UnifiedNotificationOptions) (idStringified : string)
  (w w0 : World) (calls0 : list Called)
  (settled0 : Completion (Result unit TaggedError))
  (calls : list Made) (settled : Completion (Result unit TaggedError)) (w1 : World) :
  options_id options = Some idStringified ->
  run_plugin (removeNotificationById (hashNanoidToNumber idStringified)) w
  = (calls0, settled0, w0) ->
  run_task'
    (tryTask
       (wait permissionGranted := invoke isPermissionGranted in
        wait permissionGranted :=
          if permissionGranted then Done true
          else (wait permission := invoke requestPermission in
                Done (String.eqb permission "granted")) in
        if permissionGranted
        then match toTauriNotification options with
             | inl tauriOptions =>
                 invoke (sendNotification
                           (with_id tauriOptions (hashNanoidToNumber idStringified)))
             | inr e => Fail e
             end
        else Done tt)
       (fun error =>
          NotificationServiceErr "Could not send notification"
            (VObj Plain [("idStringified", VStr idStringified);
                         ("title", VStr (title options));
                         ("description", VStr (description options))])
            error)) w0
  = (calls, settled, w1) ->
  run_task' (notify' options) w
  = (List.map plugin_call calls0 ++ calls,
     match settled with
     | Normal (Ok _) => Normal (Ok idStringified)
     | Normal (Err notifyError) => Normal (Err notifyError)
     | Throw e => Throw e
     | Unmodelled => Unmodelled
     end, w1).
Proof.
  intros Hid Hrun Htry. destruct (removal_resolved _ _ _ _ _ Hrun) as [r0 ->].
  unfold notify. rewrite Hid. cbn [tbind].
  rewrite run_task_tbind, run_task_lift, Hrun.
  rewrite run_task_tbind, Htry.
  destruct settled as [[u | err] | e |]; simpl; now rewrite ?app_nil_r.
Qed.

(** X24. With permission granted [notify] sends the notification and
    returns the string id, whatever became of the removal of the earlier
    notification with that id: after the calls of the removal come the
    permission check and the send, and nothing else.  What is sent carries
    the numeric hash of the string id as its [id], even when the converted
    options bring an [id] of their own. *)
Theorem notify_sends_when_permitted (options : UnifiedNotificationOptions)
  (idStringified : string) (w w0 w1 w2 : World) (calls0 : list Called)
  (settled0 : Completion (Result unit TaggedError)) (tauriOptions : JsVal) :
  options_id options = Some idStringified ->
  run_plugin (removeNotificationById (hashNanoidToNumber idStringified)) w
  = (calls0, settled0, w0) ->
  platform _ isPermissionGranted w0 = (inl true, w1) ->
  toTauriNotification options = inl tauriOptions ->
  platform _ (sendNotification (with_id tauriOptions (hashNanoidToNumber idStringified))) w1
  = (inl tt, w2) ->
  run_task' (notify' options) w
  = (List.map plugin_call calls0
     ++ [made isPermissionGranted;
         made (sendNotification (with_id tauriOptions (hashNanoidToNumber idStringified)))],
     Normal (Ok idStringified), w2) /\
  ParamsMore.read_prop (with_id tauriOptions (hashNanoidToNumber idStringified)) "id"
  = Some (VNum (hashNanoidToNumber idStringified)).
Proof.
  intros Hid Hrun Hpg Ht Hsend. split; [| apply ParamsMoreTheory.lookup_upsert_eq].
  rewrite (run_notify options idStringified w w0 calls0 settled0
             [made isPermissionGranted;
              made (sendNotification (with_id tauriOptions (hashNanoidToNumber idStringified)))]
             (Normal (Ok tt)) w2 Hid Hrun); [reflexivity |].
  simpl. rewrite Hpg. simpl. rewrite Ht. simpl. rewrite Hsend. reflexivity.
Qed.

(** X25. Without permission nothing is sent, and [notify] still returns
    [Ok] of the string id: when permission is not granted and the request
    for it is answered with anything but ['granted'], the calls after the
    removal are the permission check and the permission request only. *)
Theorem notify_without_permission_reports_success (options : UnifiedNotificationOptions)
  (idStringified answer : string) (w w0 w1 w2 : World) (calls0 : list Called)
  (settled0 : Completion (Result unit TaggedError)) :
  options_id options = Some idStringified ->
  run_plugin (removeNotificationById (hashNanoidToNumber idStringified)) w
  = (calls0, settled0, w0) ->
  platform _ isPermissionGranted w0 = (inl false, w1) ->
  platform _ requestPermission w1 = (inl answer, w2) ->
  answer <> "granted" ->
  run_task' (notify' options) w
  = (List.map plugin_call calls0 ++ [made isPermissionGranted; made requestPermission],
     Normal (Ok idStringified), w2).
Proof.
  intros Hid Hrun Hpg Hreq Hne. apply String.eqb_neq in Hne.
  rewrite (run_notify options idStringified w w0 calls0 settled0
             [made isPermissionGranted; made requestPermission]
             (Normal (Ok tt)) w2 Hid Hrun); [reflexivity |].
  simpl. rewrite Hpg. simpl. rewrite Hreq. simpl. rewrite Hne. reflexivity.
Qed.

(** X26. A failure while asking for permission is returned, not thrown:
    when the permission check rejects with [e], [notify] resolves to the
    error [NotificationServiceErr] builds, with [e] as cause and the string
    id, title and description as context, and nothing is sent. *)
Theorem notify_failure_is_returned (options : UnifiedNotificationOptions)
  (idStringified : string) (w w0 w1 : World) (calls0 : list Called)
  (settled0 : Completion (Result unit TaggedError)) (e : JsVal) :
  options_id options = Some idStringified ->
  run_plugin (removeNotificationById (hashNanoidToNumber idStringified)) w
  = (calls0, settled0, w0) ->
  platform _ isPermissionGranted w0 = (inr e, w1) ->
  run_task' (notify' options) w
  = (List.map plugin_call calls0 ++ [made isPermissionGranted],
     Normal (NotificationServiceErr "Could not send notification"
               (VObj Plain [("idStringified", VStr idStringified);
                            ("title", VStr (title options));
                            ("description", VStr (description options))])
               e), w1).
Proof.
  intros Hid Hrun Hpg.
  rewrite (run_notify options idStringified w w0 calls0 settled0
             [made isPermissionGranted]
             (Normal (Err (mkTaggedError "NotificationServiceError"
                             "Could not send notification"
                             (VObj Plain [("idStringified", VStr idStringified);
                                          ("title", VStr (title options));
                                          ("description", VStr (description options))])
                             e))) w1 Hid Hrun); [reflexivity |].
  simpl. rewrite Hpg. reflexivity.
Qed.

(** X27. [notify] never rejects once it has an id: with an id in the
    options, or with [nanoid()] returning one, it resolves to a result
    whatever the platform does afterwards. *)
Theorem notify_resolves (options : UnifiedNotificationOptions) (w : World) :
  (options_id options <> None \/
   exists generated w1, platform _ nanoid w = (inl generated, w1)) ->
  exists calls r w', run_task' (notify' options) w = (calls, Normal r, w').
Proof.
  intros Hid. unfold notify.
  assert (Hrest : forall idStringified w0, exists calls r w',
             run_task'
               (tbind (lift (removeNotificationById (hashNanoidToNumber idStringified)))
                  (fun _ =>
                     tbind
                       (tryTask
                          (wait permissionGranted := invoke isPermissionGranted in
                           wait permissionGranted :=
                             if permissionGranted then Done true
                             else (wait permission := invoke requestPermission in
                                   Done (String.eqb permission "granted")) in
                           if permissionGranted
                           then match toTauriNotification options with
                                | inl tauriOptions =>
                                    invoke (sendNotification
                                              (with_id tauriOptions
                                                 (hashNanoidToNumber idStringified)))
                                | inr e => Fail e
                                end
                           else Done tt)
                          (fun error =>
                             NotificationServiceErr "Could not send notification"
                               (VObj Plain [("idStringified", VStr idStringified);
                                            ("title", VStr (title options));
                                            ("description", VStr (description options))])
                               error))
                       (fun sent => match sent with
                                    | Err notifyError => Done (Err notifyError)
                                    | Ok _ => Done (Ok idStringified)
                                    end))) w0
             = (calls, Normal r, w')).
  { intros idStringified w0. rewrite run_task_tbind, run_task_lift.
    destruct (ServicesMoreTheory.removeNotificationById_resolves World
                (fun X call => platform X (plugin call))
                (hashNanoidToNumber idStringified) w0) as (c0 & r0 & w1 & ->).
    rewrite run_task_tbind.
    match goal with
    | |- context [run_task' (tryTask ?b ?c) w1] =>
        destruct (tryTask_resolves b c w1) as (c1 & [u | err] & w2 & ->)
    end; simpl; eauto. }
  destruct (options_id options) as [given |].
  - cbn [tbind]. apply Hrest.
  - destruct Hid as [Hid | (generated & w1 & Hgen)]; [now destruct Hid |].
    unfold invoke at 1. cbn [tbind run_task]. rewrite Hgen. cbn [tbind].
    destruct (Hrest generated w1) as (calls & r & w' & ->). eauto.
Qed.

End Run.

Lemma notify_sends_when_permitted_witness :
  run_task unit (quiet_platform (inl true) "unused")
    (notify (fun _ => 42%Z) titled (mkOptions (Some "abc") "Saved" "Recording saved")) tt
  = ([made (plugin active); made isPermissionGranted;
      made (sendNotification (VObj Plain [("id", VNum 42); ("title", VStr "Saved")]))],
     Normal (Ok "abc"), tt).
Proof.
  refine (proj1 (notify_sends_when_permitted unit (quiet_platform (inl true) "unused")
                   (fun _ => 42%Z) titled (mkOptions (Some "abc") "Saved" "Recording saved")
                   "abc" tt tt tt tt [called active] (Normal (Ok tt))
                   (VObj Plain [("id", VNum 0); ("title", VStr "Saved")]) _ _ _ _ _));
    reflexivity.
Defined.

Lemma notify_without_permission_reports_success_witness :
  run_task unit (quiet_platform (inl false) "denied")
    (notify (fun _ => 42%Z) titled (mkOptions (Some "abc") "Saved" "Recording saved")) tt
  = ([made (plugin active); made isPermissionGranted; made requestPermission],
     Normal (Ok "abc"), tt).
Proof.
  apply (notify_without_permission_reports_success unit (quiet_platform (inl false) "denied")
           (fun _ => 42%Z) titled (mkOptions (Some "abc") "Saved" "Recording saved")
           "abc" "denied" tt tt tt tt [called active] (Normal (Ok tt)));
    try reflexivity.
  discriminate.
Defined.

Lemma notify_failure_is_returned_witness :
  run_task unit (quiet_platform (inr (VStr "no plugin")) "unused")
    (notify (fun _ => 42%Z) titled (mkOptions (Some "abc") "Saved" "Recording saved")) tt
  = ([made (plugin active); made isPermissionGranted],
     Normal (Err (mkTaggedError "NotificationServiceError" "Could not send notification"
                    (VObj Plain [("idStringified", VStr "abc"); ("title", VStr "Saved");
                                 ("description", VStr "Recording saved")])
                    (VStr "no plugin"))), tt).
Proof.
  apply (notify_failure_is_returned unit (quiet_platform (inr (VStr "no plugin")) "unused")
           (fun _ => 42%Z) titled (mkOptions (Some "abc") "Saved" "Recording saved")
           "abc" tt tt tt [called active] (Normal (Ok tt)) (VStr "no plugin"));
    reflexivity.
Defined.

Lemma notify_resolves_witness :
  exists calls r w',
    run_task unit (quiet_platform (inl true) "unused")
      (notify (fun _ => 42%Z) titled (mkOptions None "Saved" "Recording saved")) tt
    = (calls, Normal r, w').
Proof.
  apply (notify_resolves unit (quiet_platform (inl true) "unused") (fun _ => 42%Z) titled
           (mkOptions None "Saved" "Recording saved") tt).
  right. exists "V1StGXR8_Z5jdHi6B-myT", tt. reflexivity.
Defined.

End NotifyTheory.
